(** * Human-in-the-loop assistant: knowledge search and help-request lifecycle

    A shallow embedding of the TypeScript sources
    - [database/store.ts]   (help requests, knowledge base, [searchKnowledge]),
    - [database/types.ts]   (record types),
    - [services/session-manager.ts] ([SessionManager]),
    - [services/notification.ts]    ([ConsoleNotificationService]),
    - [services/escalation.ts]      ([escalateToSupervisor], [followUpWithCustomer]),
    - [supervisor-ui/server.ts]     (the [respond] route),
    followed by the properties of the specification that concern them.

    Conventions of the embedding.
    - JavaScript strings are [string]s whose characters are ASCII code units;
      [toLowerCase], [trim] and the class [\s] are modelled on that range.
    - ISO time stamps ([Date.toISOString]) are the millisecond counts they
      denote, as [Z]; [new Date(s) < now] is [<] on them.  Every reading of
      the system clock is a reading of its own.
    - The JSON files are the lists they hold; reading a missing file gives [[]]
      as [readJsonFile] does, and file I/O itself does not fail.
    - [Array.prototype.sort] is stable (ECMAScript 2019).
    - The notification service is the console one, which
      [createNotificationService] returns when no webhook is configured. *)

From Stdlib Require Import ZArith List Bool Ascii String Lia.
From stdpp Require Import base option list strings pretty gmap.

Local Open Scope string_scope.
Local Open Scope Z_scope.

(** ** JavaScript string primitives *)

Module JsString.

(** The ASCII part of the class [\s] (and of what [trim] removes):
    TAB, LF, VT, FF, CR and SPACE. *)
Definition isWhiteSpace (c : ascii) : bool :=
  let n := N_of_ascii c in
  (((9 <=? n) && (n <=? 13)) || (n =? 32))%N.

Definition lowerChar (c : ascii) : ascii :=
  let n := N_of_ascii c in
  if ((65 <=? n) && (n <=? 90))%N then ascii_of_N (n + 32) else c.

(** [s.toLowerCase()] *)
Fixpoint toLowerCase (s : string) : string :=
  match s with
  | EmptyString => EmptyString
  | String c s' => String (lowerChar c) (toLowerCase s')
  end.

Fixpoint trimStart (s : string) : string :=
  match s with
  | EmptyString => EmptyString
  | String c s' => if isWhiteSpace c then trimStart s' else s
  end.

(** [s.trim()] *)
Definition trim (s : string) : string :=
  String.rev (trimStart (String.rev (trimStart s))).

(** [s.includes(t)]: [t] occurs in [s] as a contiguous substring. *)
Fixpoint includes (s t : string) : bool :=
  String.prefix t s
  || match s with
     | EmptyString => false
     | String _ s' => includes s' t
     end.

(** [s.split(/\s+/)]: cut at every maximal run of white space.  [cur] is
    the piece being read, reversed; [inGap] tells that the previous
    character was white space, so that a run cuts only once.  A leading or
    trailing run leaves an empty first or last piece, and the empty string
    splits into one empty piece, as in JavaScript. *)
Fixpoint splitGo (inGap : bool) (cur : string) (s : string) : list string :=
  match s with
  | EmptyString => [String.rev cur]
  | String c s' =>
      if isWhiteSpace c then
        if inGap then splitGo true cur s'
        else String.rev cur :: splitGo true EmptyString s'
      else splitGo false (String c cur) s'
  end.

Definition splitWhitespace (s : string) : list string :=
  splitGo false EmptyString s.

(** [s.length] *)
Definition len (s : string) : Z := Z.of_nat (String.length s).

(** Truthiness of a string value: every string but the empty one. *)
Definition truthy (s : string) : bool := negb (String.eqb s "").

(** [arr.includes(w)] on an array of strings. *)
Definition arrayIncludes (arr : list string) (w : string) : bool :=
  existsb (String.eqb w) arr.

End JsString.

Import JsString.

(** ** Outcomes of calls that may throw *)

Inductive Exception := TypeError.

Inductive Outcome (A : Type) : Type :=
| Returns (a : A)
| Throws (e : Exception).
Arguments Returns {A} a.
Arguments Throws {A} e.

(** ** Record types ([database/types.ts]) *)

Inductive HelpRequestStatus := PENDING | RESOLVED | TIMEOUT.

Record HelpRequest := mkHelpRequest {
  hr_id : string;
  hr_customerPhone : string;
  hr_customerName : option string;
  hr_question : string;
  hr_context : option string;
  hr_status : HelpRequestStatus;
  hr_createdAt : Z;
  hr_resolvedAt : option Z;
  hr_supervisorAnswer : option string;
  hr_timeoutAt : Z
}.

Inductive Source := initial | learned.

Record KnowledgeEntry := mkKnowledgeEntry {
  ke_id : string;
  ke_question : string;
  ke_answer : string;
  ke_category : option string;
  ke_createdAt : Z;
  ke_updatedAt : Z;
  ke_source : Source
}.

Global Instance HelpRequestStatus_eq_dec : EqDecision HelpRequestStatus.
Proof. solve_decision. Defined.
Global Instance Source_eq_dec : EqDecision Source.
Proof. solve_decision. Defined.

(** ** The knowledge search ([searchKnowledge] in [database/store.ts]) *)

Module Search.

Definition stopWords : list string :=
  ["the"; "are"; "your"; "what"; "where"; "how"; "can"; "do"; "does"; "is";
   "at"; "to"; "of"; "glamour"; "salon"].

(** [w => w.length > 3 && !stopWords.includes(w)] *)
Definition isQueryWord (w : string) : bool :=
  (3 <? len w) && negb (arrayIncludes stopWords w).

(** [normalizedQuery.split(/\s+/).filter(...)] *)
Definition queryWordsOf (normalizedQuery : string) : list string :=
  List.filter isQueryWord (splitWhitespace normalizedQuery).

(** The own properties of the object literal [synonyms]. *)
Definition synonymTable : list (string * list string) :=
  [ ("price", ["cost"; "pricing"; "fee"; "charge"; "rate"]);
    ("cost", ["price"; "pricing"; "fee"; "charge"; "rate"]);
    ("pricing", ["price"; "cost"; "fee"; "charge"; "rate"]);
    ("color", ["coloring"; "colour"; "colouring"]);
    ("coloring", ["color"; "colour"; "colouring"]);
    ("hair", ["haircut"; "hairstyle"; "haircutting"]);
    ("appointment", ["booking"; "reservation"; "schedule"]);
    ("booking", ["appointment"; "reservation"; "schedule"]);
    ("hours", ["time"; "schedule"; "open"; "closed"]);
    ("location", ["address"; "where"; "find"]);
    ("services", ["service"; "treatments"; "offerings"]) ].

Fixpoint ownProperty (table : list (string * list string)) (key : string)
  : option (list string) :=
  match table with
  | [] => None
  | (k, v) :: rest => if String.eqb k key then Some v else ownProperty rest key
  end.

(** What the property read [synonyms[word]] evaluates to.  [synonyms] is a
    plain object, so a key that is not its own is looked up on
    [Object.prototype]: the lower-case names found there, ["constructor"]
    and ["__proto__"], give a truthy value that is not an array; every
    other key gives [undefined]. *)
Inductive PropertyValue :=
| Undefined
| WordArray (words : list string)
| InheritedObject.

Definition inheritedProperty (key : string) : bool :=
  String.eqb key "constructor" || String.eqb key "__proto__".

Definition synonyms (word : string) : PropertyValue :=
  match ownProperty synonymTable word with
  | Some words => WordArray words
  | None => if inheritedProperty word then InheritedObject else Undefined
  end.

(** [set.add(x)] on a [Set] kept in insertion order. *)
Definition setAdd (s : list string) (x : string) : list string :=
  if arrayIncludes s x then s else s ++ [x].

(** [new Set(words)] *)
Definition newSet (words : list string) : list string :=
  fold_left setAdd words [].

(** The loop [queryWords.forEach(word => { if (synonyms[word]) ... })].
    On an inherited property the test succeeds and the call of its missing
    [forEach] throws. *)
Fixpoint addSynonyms (expanded : list string) (queryWords : list string)
  : Outcome (list string) :=
  match queryWords with
  | [] => Returns expanded
  | word :: rest =>
      match synonyms word with
      | Undefined => addSynonyms expanded rest
      | WordArray syns => addSynonyms (fold_left setAdd syns expanded) rest
      | InheritedObject => Throws TypeError
      end
  end.

(** [Array.from(expandedQueryWords)] for a normalized query. *)
Definition expandedQueryWordsOf (normalizedQuery : string)
  : Outcome (list string) :=
  let queryWords := queryWordsOf normalizedQuery in
  addSynonyms (newSet queryWords) queryWords.

(** [normalizedQuestion.split(/\s+/).filter(w => w.length > 3)] *)
Definition questionWordsOf (normalizedQuestion : string) : list string :=
  List.filter (fun w => 3 <? len w) (splitWhitespace normalizedQuestion).

Definition normalizedQuestionOf (entry : KnowledgeEntry) : string :=
  trim (toLowerCase (ke_question entry)).

(** [word => questionWords.includes(word)] *)
Definition isExactMatch (questionWords : list string) (word : string) : bool :=
  arrayIncludes questionWords word.

(** [queryWord => questionWords.some(questionWord =>
      questionWord.includes(queryWord) || queryWord.includes(questionWord))] *)
Definition isPartialMatch (questionWords : list string) (queryWord : string)
  : bool :=
  existsb (fun questionWord =>
             includes questionWord queryWord || includes queryWord questionWord)
          questionWords.

Definition matchCount (expanded : list string) (entry : KnowledgeEntry) : Z :=
  let questionWords := questionWordsOf (normalizedQuestionOf entry) in
  Z.of_nat (length (List.filter (isExactMatch questionWords) expanded)).

Definition partialMatches (expanded : list string) (entry : KnowledgeEntry) : Z :=
  let questionWords := questionWordsOf (normalizedQuestionOf entry) in
  Z.of_nat (length (List.filter (isPartialMatch questionWords) expanded)).

(** Priority 3: [score += matchCount * 20; score += partialMatches * 5]. *)
Definition keywordScore (expanded : list string) (entry : KnowledgeEntry) : Z :=
  matchCount expanded entry * 20 + partialMatches expanded entry * 5.

(** Priority 1: the question contains the query or the query the question. *)
Definition substringScore (normalizedQuery : string) (entry : KnowledgeEntry) : Z :=
  let normalizedQuestion := normalizedQuestionOf entry in
  if includes normalizedQuestion normalizedQuery
     || includes normalizedQuery normalizedQuestion
  then 100 else 0.

(** Priority 2: [category && expanded.some(word => category.includes(word))]
    with [category = entry.category?.toLowerCase() || '']. *)
Definition categoryScore (expanded : list string) (entry : KnowledgeEntry) : Z :=
  let category :=
    match ke_category entry with
    | Some c => toLowerCase c
    | None => ""
    end in
  if truthy category && existsb (fun word => includes category word) expanded
  then 50 else 0.

Definition learnedBonus (entry : KnowledgeEntry) : Z :=
  match ke_source entry with learned => 10 | initial => 0 end.

(** The body of [knowledge.map((entry) => ...)]: the successive [score +=]. *)
Definition scoreEntry (normalizedQuery : string) (expanded : list string)
           (entry : KnowledgeEntry) : Z :=
  0 + substringScore normalizedQuery entry
    + categoryScore expanded entry
    + keywordScore expanded entry
    + learnedBonus entry.

(** [arr.sort(cmp)]: a stable sort; [x] goes before [y] when [cmp x y <= 0]
    and [x] came first. *)
Fixpoint insertSorted {A : Type} (cmp : A -> A -> Z) (x : A) (l : list A)
  : list A :=
  match l with
  | [] => [x]
  | y :: l' => if cmp x y <=? 0 then x :: l else y :: insertSorted cmp x l'
  end.

Definition sort {A : Type} (cmp : A -> A -> Z) (l : list A) : list A :=
  fold_right (insertSorted cmp) [] l.

Definition scoredEntriesOf (knowledge : list KnowledgeEntry)
           (normalizedQuery : string) (expanded : list string)
  : list (KnowledgeEntry * Z) :=
  List.filter (fun p => 0 <? snd p)
    (List.map (fun entry => (entry, scoreEntry normalizedQuery expanded entry))
              knowledge).

(** [searchKnowledge(query)], on the knowledge base it read. *)
Definition searchKnowledge (knowledge : list KnowledgeEntry) (query : string)
  : Outcome (option KnowledgeEntry) :=
  let normalizedQuery := trim (toLowerCase query) in
  match expandedQueryWordsOf normalizedQuery with
  | Throws e => Throws e
  | Returns expanded =>
      let scoredEntries := scoredEntriesOf knowledge normalizedQuery expanded in
      let sorted := sort (fun a b => snd b - snd a) scoredEntries in
      Returns (match sorted with
               | best :: _ => Some (fst best)
               | [] => None
               end)
  end.

End Search.

(** The seed entries of [database/seed.ts] (ids and dates as a run of the seed
    could give them). *)
Module Seed.

Definition hours : KnowledgeEntry :=
  mkKnowledgeEntry "kb_1_a" "What are your business hours?"
    "We are open Monday through Friday from 9 AM to 7 PM, and Saturday from 10 AM to 6 PM. We are closed on Sundays."
    (Some "hours") 1 1 initial.

Definition location : KnowledgeEntry :=
  mkKnowledgeEntry "kb_2_b" "Where are you located?"
    "We are located at 123 Beauty Street, San Francisco, CA 94102."
    (Some "location") 2 2 initial.

Definition services : KnowledgeEntry :=
  mkKnowledgeEntry "kb_3_c" "What services do you offer?"
    "We offer haircuts, hair coloring, highlights, balayage, hair styling, blowouts, keratin treatments, and hair extensions."
    (Some "services") 3 3 initial.

Definition haircut : KnowledgeEntry :=
  mkKnowledgeEntry "kb_4_d" "How much does a haircut cost?"
    "A standard haircut is $65. A haircut with a senior stylist is $85."
    (Some "pricing") 4 4 initial.

Definition appointment : KnowledgeEntry :=
  mkKnowledgeEntry "kb_5_e" "Do I need an appointment?"
    "Yes, we operate by appointment only. You can book by calling us or through our website."
    (Some "booking") 5 5 initial.

Definition initialKnowledge : list KnowledgeEntry :=
  [hours; location; services; haircut; appointment].

End Seed.

(** ** The running system: files, live sessions, clock *)

Section System.

(** The transport's session object ([voice.AgentSession]) and its [say]:
    [say h m = true] when the promise of [h.say(m)] resolves, [false] when
    it rejects. *)
Context {Handle : Type}.
Variable say : Handle -> string -> bool.

(** The successive readings of the system clock ([Date.now()], [new Date()])
    and the successive values of [Math.random().toString(36).substr(2, 9)]. *)
Variable clock : nat -> Z.
Variable random : nat -> string.

(** [ActiveSession] of [services/session-manager.ts]. *)
Record ActiveSession := mkActiveSession {
  as_customerPhone : string;
  as_session : Handle;
  as_roomName : string;
  as_connectedAt : Z
}.

(** One line of the console per [notifyCustomer]: whom it was for, the
    message, and whether it was spoken into a live call. *)
Record CustomerNotice := mkCustomerNotice {
  cn_customerPhone : string;
  cn_message : string;
  cn_delivered : bool
}.

Record World := mkWorld {
  helpRequests : list HelpRequest;        (* help-requests.json *)
  knowledgeBase : list KnowledgeEntry;    (* knowledge-base.json *)
  activeSessions : gmap string ActiveSession; (* SessionManager.activeSessions *)
  notices : list CustomerNotice;          (* console, oldest first *)
  clockReads : nat;                       (* readings of the clock so far *)
  randomDraws : nat                       (* calls of Math.random so far *)
}.

(** An operation takes the system from one state to the next and returns a
    value. *)
Definition M (A : Type) : Type := World -> A * World.

Definition ret {A} (a : A) : M A := fun w => (a, w).

Definition bind {A B} (m : M A) (k : A -> M B) : M B :=
  fun w => k (fst (m w)) (snd (m w)).

Notation "x <- m ;; k" := (bind m (fun x => k))
  (at level 100, m at next level, right associativity).
Notation "m ;;; k" := (bind m (fun _ => k))
  (at level 100, right associativity).

(** [for (const x of xs) { body x }] *)
Fixpoint forEach {A} (xs : list A) (body : A -> M unit) : M unit :=
  match xs with
  | [] => ret tt
  | x :: rest => body x ;;; forEach rest body
  end.

(** *** Effects *)

Definition now : M Z :=
  fun w => (clock (clockReads w),
            mkWorld (helpRequests w) (knowledgeBase w) (activeSessions w)
                    (notices w) (S (clockReads w)) (randomDraws w)).

Definition randomSuffix : M string :=
  fun w => (random (randomDraws w),
            mkWorld (helpRequests w) (knowledgeBase w) (activeSessions w)
                    (notices w) (clockReads w) (S (randomDraws w))).

Definition getAllHelpRequests : M (list HelpRequest) :=
  fun w => (helpRequests w, w).

Definition writeHelpRequests (requests : list HelpRequest) : M unit :=
  fun w => (tt, mkWorld requests (knowledgeBase w) (activeSessions w)
                        (notices w) (clockReads w) (randomDraws w)).

Definition getAllKnowledge : M (list KnowledgeEntry) :=
  fun w => (knowledgeBase w, w).

Definition writeKnowledge (knowledge : list KnowledgeEntry) : M unit :=
  fun w => (tt, mkWorld (helpRequests w) knowledge (activeSessions w)
                        (notices w) (clockReads w) (randomDraws w)).

Definition getSessions : M (gmap string ActiveSession) :=
  fun w => (activeSessions w, w).

Definition setSessions (sessions : gmap string ActiveSession) : M unit :=
  fun w => (tt, mkWorld (helpRequests w) (knowledgeBase w) sessions
                        (notices w) (clockReads w) (randomDraws w)).

Definition logNotice (n : CustomerNotice) : M unit :=
  fun w => (tt, mkWorld (helpRequests w) (knowledgeBase w) (activeSessions w)
                        (notices w ++ [n]) (clockReads w) (randomDraws w)).

(** *** Help requests ([database/store.ts]) *)

Definition getHelpRequest (id : string) : M (option HelpRequest) :=
  requests <- getAllHelpRequests ;;
  ret (List.find (fun r => String.eqb (hr_id r) id) requests).

(** [Omit<HelpRequest, 'id' | 'createdAt' | 'timeoutAt'>] *)
Record NewHelpRequest := mkNewHelpRequest {
  nr_customerPhone : string;
  nr_customerName : option string;
  nr_question : string;
  nr_context : option string;
  nr_status : HelpRequestStatus;
  nr_resolvedAt : option Z;
  nr_supervisorAnswer : option string
}.

Definition oneHour : Z := 60 * 60 * 1000.

(** The object literal reads the clock three times, in this order: for the
    id, for [createdAt] and for [timeoutAt]. *)
Definition createHelpRequest (request : NewHelpRequest) : M HelpRequest :=
  requests <- getAllHelpRequests ;;
  idTime <- now ;;
  suffix <- randomSuffix ;;
  created <- now ;;
  timeoutBase <- now ;;
  let newRequest :=
    {| hr_id := "req_" +:+ pretty idTime +:+ "_" +:+ suffix;
       hr_customerPhone := nr_customerPhone request;
       hr_customerName := nr_customerName request;
       hr_question := nr_question request;
       hr_context := nr_context request;
       hr_status := nr_status request;
       hr_createdAt := created;
       hr_resolvedAt := nr_resolvedAt request;
       hr_supervisorAnswer := nr_supervisorAnswer request;
       hr_timeoutAt := timeoutBase + oneHour |} in
  writeHelpRequests (requests ++ [newRequest]) ;;;
  ret newRequest.

(** [Partial<HelpRequest>]: [None] for a key the object does not have. *)
Record HelpRequestUpdates := mkUpdates {
  u_id : option string;
  u_customerPhone : option string;
  u_customerName : option (option string);
  u_question : option string;
  u_context : option (option string);
  u_status : option HelpRequestStatus;
  u_createdAt : option Z;
  u_resolvedAt : option (option Z);
  u_supervisorAnswer : option (option string);
  u_timeoutAt : option Z
}.

Definition noUpdates : HelpRequestUpdates :=
  mkUpdates None None None None None None None None None None.

(** [{ ...request, ...updates }] *)
Definition spread (request : HelpRequest) (updates : HelpRequestUpdates)
  : HelpRequest :=
  {| hr_id := default (hr_id request) (u_id updates);
     hr_customerPhone := default (hr_customerPhone request) (u_customerPhone updates);
     hr_customerName := default (hr_customerName request) (u_customerName updates);
     hr_question := default (hr_question request) (u_question updates);
     hr_context := default (hr_context request) (u_context updates);
     hr_status := default (hr_status request) (u_status updates);
     hr_createdAt := default (hr_createdAt request) (u_createdAt updates);
     hr_resolvedAt := default (hr_resolvedAt request) (u_resolvedAt updates);
     hr_supervisorAnswer :=
       default (hr_supervisorAnswer request) (u_supervisorAnswer updates);
     hr_timeoutAt := default (hr_timeoutAt request) (u_timeoutAt updates) |}.

(** [requests.findIndex((r) => r.id === id)], [None] for [-1]. *)
Fixpoint findIndex (requests : list HelpRequest) (id : string) : option nat :=
  match requests with
  | [] => None
  | r :: rest =>
      if String.eqb (hr_id r) id then Some 0%nat
      else match findIndex rest id with
           | Some i => Some (S i)
           | None => None
           end
  end.

Definition updateHelpRequest (id : string) (updates : HelpRequestUpdates)
  : M (option HelpRequest) :=
  requests <- getAllHelpRequests ;;
  match findIndex requests id with
  | None => ret None
  | Some index =>
      match requests !! index with
      | None => ret None
      | Some old =>
          let updated := spread old updates in
          writeHelpRequests (<[index := updated]> requests) ;;;
          ret (Some updated)
      end
  end.

(** [request.status = s] *)
Definition setStatus (s : HelpRequestStatus) (r : HelpRequest) : HelpRequest :=
  {| hr_id := hr_id r;
     hr_customerPhone := hr_customerPhone r;
     hr_customerName := hr_customerName r;
     hr_question := hr_question r;
     hr_context := hr_context r;
     hr_status := s;
     hr_createdAt := hr_createdAt r;
     hr_resolvedAt := hr_resolvedAt r;
     hr_supervisorAnswer := hr_supervisorAnswer r;
     hr_timeoutAt := hr_timeoutAt r |}.

Definition isPending (r : HelpRequest) : bool :=
  bool_decide (hr_status r = PENDING).

(** [request.status === PENDING && new Date(request.timeoutAt) < now] *)
Definition expired (nowMs : Z) (r : HelpRequest) : bool :=
  isPending r && (hr_timeoutAt r <? nowMs).

(** The loop "auto-timeout expired requests" on the array it mutates. *)
Definition sweep (nowMs : Z) (requests : list HelpRequest) : list HelpRequest :=
  List.map (fun r => if expired nowMs r then setStatus TIMEOUT r else r) requests.

Definition getPendingHelpRequests : M (list HelpRequest) :=
  requests <- getAllHelpRequests ;;
  nowMs <- now ;;
  let hasChanges := existsb (expired nowMs) requests in
  let requests' := sweep nowMs requests in
  (if hasChanges then writeHelpRequests requests' else ret tt) ;;;
  ret (List.filter isPending requests').

(** *** Knowledge base ([database/store.ts]) *)

(** [Omit<KnowledgeEntry, 'id' | 'createdAt' | 'updatedAt'>] *)
Record NewKnowledge := mkNewKnowledge {
  nk_question : string;
  nk_answer : string;
  nk_category : option string;
  nk_source : Source
}.

Definition addKnowledge (entry : NewKnowledge) : M KnowledgeEntry :=
  knowledge <- getAllKnowledge ;;
  idTime <- now ;;
  suffix <- randomSuffix ;;
  created <- now ;;
  updated <- now ;;
  let newEntry :=
    {| ke_id := "kb_" +:+ pretty idTime +:+ "_" +:+ suffix;
       ke_question := nk_question entry;
       ke_answer := nk_answer entry;
       ke_category := nk_category entry;
       ke_createdAt := created;
       ke_updatedAt := updated;
       ke_source := nk_source entry |} in
  writeKnowledge (knowledge ++ [newEntry]) ;;;
  ret newEntry.

Definition searchKnowledge (query : string)
  : M (Outcome (option KnowledgeEntry)) :=
  knowledge <- getAllKnowledge ;;
  ret (Search.searchKnowledge knowledge query).

(** *** Live sessions ([services/session-manager.ts]) *)

Definition registerSession (customerPhone : string) (session : Handle)
           (roomName : string) : M unit :=
  connected <- now ;;
  sessions <- getSessions ;;
  setSessions
    (<[customerPhone := mkActiveSession customerPhone session roomName connected]>
       sessions).

Definition unregisterSession (customerPhone : string) : M unit :=
  sessions <- getSessions ;;
  setSessions (delete customerPhone sessions).

Definition sendMessageToCustomer (customerPhone message : string) : M bool :=
  sessions <- getSessions ;;
  match sessions !! customerPhone with
  | None => ret false
  | Some activeSession =>
      if say (as_session activeSession) message then ret true
      else unregisterSession customerPhone ;;; ret false
  end.

(** *** Notifications ([ConsoleNotificationService]) *)

(** The banner of a delivery prints the time, which reads the clock. *)
Definition notifyCustomer (customerPhone message : string) : M unit :=
  sentToActiveSession <- sendMessageToCustomer customerPhone message ;;
  (if sentToActiveSession then (_ <- now ;; ret tt) else ret tt) ;;;
  logNotice (mkCustomerNotice customerPhone message sentToActiveSession).

(** [notifySupervisor] only prints the request. *)
Definition notifySupervisor (request : HelpRequest) : M unit := ret tt.

Definition answerMessage (answer : string) : string :=
  "Hi! I got an answer to your question: " +:+ answer.

Definition truthyOpt (v : option string) : bool :=
  match v with
  | Some s => truthy s
  | None => false
  end.

(** [request.supervisorAnswer && request.resolvedAt]; a time stamp that is
    present is a non-empty string. *)
Definition answered (r : HelpRequest) : bool :=
  truthyOpt (hr_supervisorAnswer r) && bool_decide (is_Some (hr_resolvedAt r)).

(** [{ status: s }] *)
Definition statusOnly (s : HelpRequestStatus) : HelpRequestUpdates :=
  mkUpdates None None None None None (Some s) None None None None.

(** The body of the loop of [checkForSupervisorResponses]: follow up with
    the customer, then mark the request as resolved. *)
Definition settleOne (request : HelpRequest) : M unit :=
  if answered request then
    notifyCustomer (hr_customerPhone request)
                   (answerMessage (default "" (hr_supervisorAnswer request))) ;;;
    _ <- updateHelpRequest (hr_id request) (statusOnly RESOLVED) ;;
    ret tt
  else ret tt.

(** One tick of the polling timer. *)
Definition checkForSupervisorResponses : M unit :=
  pendingRequests <- getPendingHelpRequests ;;
  forEach pendingRequests settleOne.

(** *** Escalation ([services/escalation.ts]) *)

Record EscalationContext := mkEscalationContext {
  ec_customerPhone : string;
  ec_customerName : option string;
  ec_question : string;
  ec_conversationContext : option string
}.

(** [if (v) data.k = v]: the key is set only for a truthy value. *)
Definition whenTruthy (v : option string) : option string :=
  if truthyOpt v then v else None.

Definition escalateToSupervisor (context : EscalationContext) : M string :=
  let requestData :=
    {| nr_customerPhone := ec_customerPhone context;
       nr_customerName := whenTruthy (ec_customerName context);
       nr_question := ec_question context;
       nr_context := whenTruthy (ec_conversationContext context);
       nr_status := PENDING;
       nr_resolvedAt := None;
       nr_supervisorAnswer := None |} in
  helpRequest <- createHelpRequest requestData ;;
  notifySupervisor helpRequest ;;;
  ret (hr_id helpRequest).

Definition followUpWithCustomer (customerPhone answer : string) : M unit :=
  notifyCustomer customerPhone (answerMessage answer).

(** *** The supervisor's HTTP route ([supervisor-ui/server.ts]) *)

(** The replies of the route; its 500 answers only a thrown error, and
    nothing that the route calls throws here. *)
Inductive Response :=
| Ok200 (request : HelpRequest)   (* { success: true, request } *)
| BadRequest400                   (* { error: 'Answer is required' } *)
| NotFound404.                    (* { error: 'Help request not found' } *)

(** [POST /api/help-requests/:id/respond] with body field [answer]
    ([None] when the body has no such field). *)
Definition respond (id : string) (answer : option string) : M Response :=
  if negb (truthyOpt answer) then ret BadRequest400
  else
    let answer := default "" answer in
    resolved <- now ;;
    updatedRequest <- updateHelpRequest id
      (mkUpdates None None None None None (Some RESOLVED) None
                 (Some (Some resolved)) (Some (Some answer)) None) ;;
    match updatedRequest with
    | None => ret NotFound404
    | Some updatedRequest =>
        _ <- addKnowledge
               {| nk_question := hr_question updatedRequest;
                  nk_answer := answer;
                  nk_category := Some "supervisor-learned";
                  nk_source := learned |} ;;
        followUpWithCustomer (hr_customerPhone updatedRequest) answer ;;;
        ret (Ok200 updatedRequest)
    end.

End System.

(** ** Auxiliary definitions for the statements *)

(** The pipeline of [searchKnowledge] once the scores are known: [map],
    [filter (score > 0)], [sort] by decreasing score, element [[0]]. *)
Definition bestOf {A : Type} (score : A -> Z) (l : list A) : option A :=
  match Search.sort (fun a b => snd b - snd a)
          (List.filter (fun p => 0 <? snd p) (List.map (fun x => (x, score x)) l)) with
  | best :: _ => Some (fst best)
  | [] => None
  end.

(** [query.toLowerCase().trim()] *)
Definition normalize (query : string) : string := trim (toLowerCase query).

Definition isLearned (entry : KnowledgeEntry) : bool :=
  bool_decide (ke_source entry = learned).

(** The keyword component as the specification words it: the question's
    tokens filtered like the query's, 20 per token equal to one of them,
    5 per token only in a substring relation with one of them. *)
Module SearchSpec.

Definition questionTokens (entry : KnowledgeEntry) : list string :=
  List.filter Search.isQueryWord
    (splitWhitespace (Search.normalizedQuestionOf entry)).

Definition exactCount (expanded : list string) (entry : KnowledgeEntry) : Z :=
  Z.of_nat (length (List.filter (arrayIncludes (questionTokens entry)) expanded)).

Definition partialOnlyCount (expanded : list string) (entry : KnowledgeEntry) : Z :=
  Z.of_nat (length (List.filter
    (fun w => Search.isPartialMatch (questionTokens entry) w
              && negb (arrayIncludes (questionTokens entry) w)) expanded)).

Definition keywordScore (expanded : list string) (entry : KnowledgeEntry) : Z :=
  20 * exactCount expanded entry + 5 * partialOnlyCount expanded entry.

End SearchSpec.

(** The tokens of [expanded] equal to a word of the question, the words of
    the question being kept by length alone, and the tokens that are only in
    a substring relation with such a word. *)
Definition exactTokens (expanded : list string) (entry : KnowledgeEntry)
  : list string :=
  List.filter
    (arrayIncludes (Search.questionWordsOf (Search.normalizedQuestionOf entry)))
    expanded.

Definition partialOnlyTokens (expanded : list string) (entry : KnowledgeEntry)
  : list string :=
  let questionWords := Search.questionWordsOf (Search.normalizedQuestionOf entry) in
  List.filter
    (fun w => Search.isPartialMatch questionWords w
              && negb (arrayIncludes questionWords w))
    expanded.

(** A field that [updates] does not name keeps its value. *)
Definition unnamedFieldsKept (updates : HelpRequestUpdates) (old new : HelpRequest)
  : Prop :=
  (u_id updates = None -> hr_id new = hr_id old)
  /\ (u_customerPhone updates = None -> hr_customerPhone new = hr_customerPhone old)
  /\ (u_customerName updates = None -> hr_customerName new = hr_customerName old)
  /\ (u_question updates = None -> hr_question new = hr_question old)
  /\ (u_context updates = None -> hr_context new = hr_context old)
  /\ (u_status updates = None -> hr_status new = hr_status old)
  /\ (u_createdAt updates = None -> hr_createdAt new = hr_createdAt old)
  /\ (u_resolvedAt updates = None -> hr_resolvedAt new = hr_resolvedAt old)
  /\ (u_supervisorAnswer updates = None ->
      hr_supervisorAnswer new = hr_supervisorAnswer old)
  /\ (u_timeoutAt updates = None -> hr_timeoutAt new = hr_timeoutAt old).

(** The updates the [respond] route passes to [updateHelpRequest]. *)
Definition resolution (resolvedAt : Z) (answer : string) : HelpRequestUpdates :=
  mkUpdates None None None None None (Some RESOLVED) None
            (Some (Some resolvedAt)) (Some (Some answer)) None.

(** What [updateHelpRequest(id, { status: RESOLVED })] makes of the list of
    help requests. *)
Definition markResolved (id : string) (requests : list HelpRequest)
  : list HelpRequest :=
  match findIndex requests id with
  | Some i =>
      match requests !! i with
      | Some old => <[i := spread old (statusOnly RESOLVED)]> requests
      | None => requests
      end
  | None => requests
  end.

(** What a tick of the poller makes of a request: a pending request that
    carries an answer becomes resolved. *)
Definition settle (r : HelpRequest) : HelpRequest :=
  if isPending r && answered r then setStatus RESOLVED r else r.

(** Whom a notice was for and what it said. *)
Definition noticeTarget (n : CustomerNotice) : string * string :=
  (cn_customerPhone n, cn_message n).

Definition announcement (r : HelpRequest) : string * string :=
  (hr_customerPhone r, answerMessage (default "" (hr_supervisorAnswer r))).

(** ** Concrete situations *)

Module Example.

(** Sessions are plain tokens; one transport on which every [say]
    succeeds, one on which every [say] fails. *)
Definition sayOk (h : unit) (m : string) : bool := true.
Definition sayFails (h : unit) (m : string) : bool := false.

(** A clock that shows 1000 at its first two readings and 1001 from the
    third on, and a clock that stands still. *)
Definition tickingClock (n : nat) : Z := if (n <? 2)%nat then 1000 else 1001.
Definition stillClock (n : nat) : Z := 1000.

Definition suffix (n : nat) : string := "k3x9q2m1z".

Definition phone : string := "+1234567890".

Definition emptyWorld : @World unit := mkWorld [] [] ∅ [] 0 0.

Definition parkingPending : HelpRequest :=
  {| hr_id := "req_1_a"; hr_customerPhone := phone; hr_customerName := None;
     hr_question := "Do you have parking?"; hr_context := None;
     hr_status := PENDING; hr_createdAt := 1; hr_resolvedAt := None;
     hr_supervisorAnswer := None; hr_timeoutAt := 3600001 |}.

Definition parkingTimedOut : HelpRequest := setStatus TIMEOUT parkingPending.

(** A request that carries an answer but whose status is [timeout]. *)
Definition answeredTimedOut : HelpRequest :=
  {| hr_id := "req_1_a"; hr_customerPhone := phone; hr_customerName := None;
     hr_question := "Do you have parking?"; hr_context := None;
     hr_status := TIMEOUT; hr_createdAt := 1; hr_resolvedAt := Some 500;
     hr_supervisorAnswer := Some "Yes, free parking in the lot";
     hr_timeoutAt := 3600001 |}.

(** A pending request that already carries an answer. *)
Definition answeredPending : HelpRequest := setStatus PENDING answeredTimedOut.

Definition liveSession : @ActiveSession unit :=
  mkActiveSession phone tt "room-1" 0.

Definition worldWith (requests : list HelpRequest) : @World unit :=
  mkWorld requests Seed.initialKnowledge ∅ [] 0 0.

Definition worldInCall (requests : list HelpRequest) : @World unit :=
  mkWorld requests Seed.initialKnowledge {[ phone := liveSession ]} [] 0 0.

Definition parkingContext : EscalationContext :=
  mkEscalationContext phone None "Do you have parking?" None.

End Example.

(** ** The rest of the services *)

(** The entries of [seedKnowledgeBase] ([database/seed.ts]). *)
Definition initialKnowledge : list NewKnowledge :=
  [ mkNewKnowledge "What are your business hours?"
      "We are open Monday through Friday from 9 AM to 7 PM, and Saturday from 10 AM to 6 PM. We are closed on Sundays."
      (Some "hours") initial;
    mkNewKnowledge "Where are you located?"
      "We are located at 123 Beauty Street, San Francisco, CA 94102."
      (Some "location") initial;
    mkNewKnowledge "What services do you offer?"
      "We offer haircuts, hair coloring, highlights, balayage, hair styling, blowouts, keratin treatments, and hair extensions."
      (Some "services") initial;
    mkNewKnowledge "How much does a haircut cost?"
      "A standard haircut is $65. A haircut with a senior stylist is $85."
      (Some "pricing") initial;
    mkNewKnowledge "Do I need an appointment?"
      "Yes, we operate by appointment only. You can book by calling us or through our website."
      (Some "booking") initial ].

Section Services.

Context {Handle : Type}.
Variable say : Handle -> string -> bool.
Variable clock : nat -> Z.
Variable random : nat -> string.

Notation "x <- m ;; k" := (bind m (fun x => k))
  (at level 100, m at next level, right associativity).
Notation "m ;;; k" := (bind m (fun _ => k))
  (at level 100, right associativity).

(** *** [SessionManager], the read side *)

(** The [try] of [isSessionActive] only returns [true]; its [catch] is never
    entered. *)
Definition isSessionActive (customerPhone : string) : @M Handle bool :=
  sessions <- getSessions ;;
  match sessions !! customerPhone with
  | None => ret false
  | Some _ => ret true
  end.

Definition getSession (customerPhone : string) : @M Handle (option ActiveSession) :=
  sessions <- getSessions ;;
  ret (sessions !! customerPhone).

(** [this.activeSessions.size] *)
Definition getActiveSessionCount : @M Handle nat :=
  sessions <- getSessions ;;
  ret (size sessions).

(** *** [ConsoleNotificationService.checkRequestResolution] *)

Definition checkRequestResolution (requestId : string) : @M Handle bool :=
  pendingRequests <- getPendingHelpRequests clock ;;
  match List.find (fun r => String.eqb (hr_id r) requestId) pendingRequests with
  | Some request =>
      if answered request then
        notifyCustomer say clock (hr_customerPhone request)
          (answerMessage (default "" (hr_supervisorAnswer request))) ;;;
        ret true
      else ret false
  | None => ret false
  end.

(** *** The tools of the agent ([agent.ts]) *)

Definition escalatedReply (requestId : string) : string :=
  "I couldn't find that in my records, so I've escalated your question to my supervisor. You'll hear back shortly. Reference: "
  +:+ requestId +:+ ".".

Definition helpRequestedReply (requestId : string) : string :=
  "I've sent your question to my supervisor. They'll get back to you shortly with an answer. Your reference number is "
  +:+ requestId +:+ ".".

(** The tool [searchKnowledge] of the assistant of [customerPhone]: answer
    from the knowledge base, or escalate. *)
Definition searchKnowledgeTool (customerPhone query : string)
  : @M Handle (Outcome string) :=
  result <- searchKnowledge query ;;
  match result with
  | Throws e => ret (Throws e)
  | Returns (Some entry) => ret (Returns (ke_answer entry))
  | Returns None =>
      requestId <- escalateToSupervisor clock random
                     (mkEscalationContext customerPhone None query None) ;;
      ret (Returns (escalatedReply requestId))
  end.

(** The tool [requestHelp]. *)
Definition requestHelpTool (customerPhone question : string) : @M Handle string :=
  requestId <- escalateToSupervisor clock random
                 (mkEscalationContext customerPhone None question None) ;;
  ret (helpRequestedReply requestId).

(** *** Seeding ([database/seed.ts], [database/init.ts]) *)

Definition seedKnowledgeBase : @M Handle unit :=
  forEach initialKnowledge (fun knowledge =>
    _ <- addKnowledge clock random knowledge ;; ret tt).

Definition initDatabase : @M Handle unit :=
  existing <- getAllKnowledge ;;
  if (length existing =? 0)%nat then seedKnowledgeBase else ret tt.

(** *** What the system can do next *)

(** One call of an entry point: the agent's tools, the supervisor's route,
    the pending-list read, a tick of the poller, the manual check, the
    session registry, the seeding. *)
Inductive Step : @World Handle -> @World Handle -> Prop :=
| step_searchTool (customerPhone query : string) w :
    Step w (snd (searchKnowledgeTool customerPhone query w))
| step_requestHelp (customerPhone question : string) w :
    Step w (snd (requestHelpTool customerPhone question w))
| step_respond (id : string) (answer : option string) w :
    Step w (snd (respond say clock random id answer w))
| step_pending w :
    Step w (snd (getPendingHelpRequests clock w))
| step_tick w :
    Step w (snd (checkForSupervisorResponses say clock w))
| step_check (requestId : string) w :
    Step w (snd (checkRequestResolution requestId w))
| step_register (customerPhone : string) (session : Handle) (roomName : string) w :
    Step w (snd (registerSession clock customerPhone session roomName w))
| step_unregister (customerPhone : string) w :
    Step w (snd (unregisterSession customerPhone w))
| step_init w :
    Step w (snd (initDatabase w)).

Inductive Steps : @World Handle -> @World Handle -> Prop :=
| steps_refl w : Steps w w
| steps_next w1 w2 w3 : Steps w1 w2 -> Step w2 w3 -> Steps w1 w3.

End Services.

(** The fields of a help request that no operation writes after creation. *)
Definition sameRequest (r r' : HelpRequest) : Prop :=
  hr_id r' = hr_id r
  /\ hr_customerPhone r' = hr_customerPhone r
  /\ hr_customerName r' = hr_customerName r
  /\ hr_question r' = hr_question r
  /\ hr_context r' = hr_context r
  /\ hr_createdAt r' = hr_createdAt r
  /\ hr_timeoutAt r' = hr_timeoutAt r.

(** The moves of a status: it stays, it goes from pending to timeout, or it
    becomes resolved. *)
Definition statusAdvances (s s' : HelpRequestStatus) : Prop :=
  s' = s \/ (s = PENDING /\ s' = TIMEOUT) \/ s' = RESOLVED.

(** No pending request carries an answer. *)
Definition settled (requests : list HelpRequest) : Prop :=
  forall r, In r requests -> isPending r = true -> answered r = false.

(** *** Follow-ups kept for the next call ([database/store.ts]) *)

Record PendingFollowUp := mkPendingFollowUp {
  fu_id : string;
  fu_customerPhone : string;
  fu_message : string;
  fu_createdAt : Z;
  fu_deliveredAt : option Z
}.

(** [Omit<PendingFollowUp, 'id' | 'createdAt'>] *)
Record NewFollowUp := mkNewFollowUp {
  nf_customerPhone : string;
  nf_message : string;
  nf_deliveredAt : option Z
}.

(** [addPendingFollowUp] on the list read from [pending-followups.json];
    [idTime] and [created] are the two readings of the clock, [suffix] the
    random part of the id.  It returns the new record and the list written. *)
Definition addPendingFollowUp (idTime : Z) (suffix : string) (created : Z)
           (followUp : NewFollowUp) (followUps : list PendingFollowUp)
  : PendingFollowUp * list PendingFollowUp :=
  let newFollowUp :=
    {| fu_id := "followup_" +:+ pretty idTime +:+ "_" +:+ suffix;
       fu_customerPhone := nf_customerPhone followUp;
       fu_message := nf_message followUp;
       fu_createdAt := created;
       fu_deliveredAt := nf_deliveredAt followUp |} in
  (newFollowUp, (followUps ++ [newFollowUp])%list).

Fixpoint findFollowUp (followUps : list PendingFollowUp) (id : string) : option nat :=
  match followUps with
  | [] => None
  | f :: rest =>
      if String.eqb (fu_id f) id then Some 0%nat
      else match findFollowUp rest id with
           | Some i => Some (S i)
           | None => None
           end
  end.

Definition setDelivered (nowMs : Z) (f : PendingFollowUp) : PendingFollowUp :=
  {| fu_id := fu_id f;
     fu_customerPhone := fu_customerPhone f;
     fu_message := fu_message f;
     fu_createdAt := fu_createdAt f;
     fu_deliveredAt := Some nowMs |}.

(** [markFollowUpDelivered]: the list the file holds afterwards; [nowMs] is
    the reading of the clock taken when the id is found. *)
Definition markFollowUpDelivered (nowMs : Z) (id : string)
           (followUps : list PendingFollowUp) : list PendingFollowUp :=
  match findFollowUp followUps id with
  | Some index =>
      match followUps !! index with
      | Some f => <[index := setDelivered nowMs f]> followUps
      | None => followUps
      end
  | None => followUps
  end.

(** [f => f.customerPhone === customerPhone && !f.deliveredAt] *)
Definition getPendingFollowUpsForCustomer (customerPhone : string)
           (followUps : list PendingFollowUp) : list PendingFollowUp :=
  List.filter
    (fun f => String.eqb (fu_customerPhone f) customerPhone
              && negb (bool_decide (is_Some (fu_deliveredAt f))))
    followUps.

(** *** Starting and stopping the poller ([services/notification.ts]) *)

(** The two fields of the service, and the interval timers of the run time:
    those that are running and the handle that [setInterval] gives next. *)
Record Polling := mkPolling {
  pollingInterval : option nat;
  isPolling : bool;
  runningTimers : gset nat;
  nextTimer : nat
}.

Definition startSupervisorResponsePolling (p : Polling) : Polling :=
  if isPolling p then p
  else {| pollingInterval := Some (nextTimer p);
          isPolling := true;
          runningTimers := {[ nextTimer p ]} ∪ runningTimers p;
          nextTimer := S (nextTimer p) |}.

Definition stopSupervisorResponsePolling (p : Polling) : Polling :=
  match pollingInterval p with
  | Some timer =>
      {| pollingInterval := None;
         isPolling := false;
         runningTimers := runningTimers p ∖ {[ timer ]};
         nextTimer := nextTimer p |}
  | None => p
  end.

Inductive PollingCall := StartPolling | StopPolling.

Definition pollingCall (p : Polling) (c : PollingCall) : Polling :=
  match c with
  | StartPolling => startSupervisorResponsePolling p
  | StopPolling => stopSupervisorResponsePolling p
  end.

(** *** Shapes of strings *)




(** The first of two search results unless the second scores strictly more. *)
Definition firstUnlessBetter {A : Type} (score : A -> Z) (r1 r2 : option A)
  : option A :=
  match r1, r2 with
  | None, _ => r2
  | _, None => r1
  | Some a, Some b => if score a <? score b then r2 else r1
  end.

(** Every request of [l] is still in [l'], at its place, with the fields of
    its creation, and its status has only advanced. *)
Definition requestsAdvance (l l' : list HelpRequest) : Prop :=
  forall (i : nat) (r : HelpRequest),
    l !! i = Some r ->
    exists r', l' !! i = Some r' /\ sameRequest r r'
               /\ statusAdvances (hr_status r) (hr_status r').

(** Every entry of [k] is still in [k'], at its place, as it was. *)
Definition knowledgeKept (k k' : list KnowledgeEntry) : Prop :=
  exists more, k' = (k ++ more)%list.

(** What an entry was made from. *)
Definition seedOf (e : KnowledgeEntry) : NewKnowledge :=
  mkNewKnowledge (ke_question e) (ke_answer e) (ke_category e) (ke_source e).

(** What a search found, without the id and the dates of the entry. *)
Definition foundContent (o : Outcome (option KnowledgeEntry))
  : Outcome (option NewKnowledge) :=
  match o with
  | Returns found => Returns (option_map seedOf found)
  | Throws e => Throws e
  end.

(** Every session is filed under the phone number it records. *)
Definition sessionsKeyed {Handle : Type}
           (sessions : gmap string (@ActiveSession Handle)) : Prop :=
  forall (customerPhone : string) (s : ActiveSession),
    sessions !! customerPhone = Some s -> as_customerPhone s = customerPhone.

(** The service as its constructor leaves it, no timer running. *)
Definition initialPolling : Polling :=
  {| pollingInterval := None; isPolling := false;
     runningTimers := ∅; nextTimer := 0 |}.

(** [f => f.customerPhone === customerPhone && !f.deliveredAt], as a
    predicate, and the test on the id. *)
Definition isPendingFor (customerPhone : string) (f : PendingFollowUp) : bool :=
  String.eqb (fu_customerPhone f) customerPhone
  && negb (bool_decide (is_Some (fu_deliveredAt f))).

Definition isNot (id : string) (f : PendingFollowUp) : bool :=
  negb (String.eqb (fu_id f) id).

Module FollowUpExample.

Definition first : PendingFollowUp :=
  mkPendingFollowUp "followup_1_a" "+1234567890" "Yes, free parking in the lot"
    1 None.

Definition second : PendingFollowUp :=
  mkPendingFollowUp "followup_2_b" "+1234567890" "We open at 9 AM" 2 None.

End FollowUpExample.
(** * Properties *)

(** ** String primitives *)

Lemma prefix_refl (s : string) : String.prefix s s = true.
Proof.
  induction s as [|c s IH]; simpl; [reflexivity|].
  destruct (ascii_dec c c) as [_|ne]; [exact IH | contradiction].
Qed.

Lemma includes_refl (s : string) : includes s s = true.
Proof.
  destruct s as [|c s]; [reflexivity|].
  cbn [includes]. now rewrite prefix_refl.
Qed.

Lemma includes_empty (s : string) : includes s "" = true.
Proof. destruct s; reflexivity. Qed.

Lemma arrayIncludes_In (arr : list string) (w : string) :
  arrayIncludes arr w = true <-> In w arr.
Proof.
  unfold arrayIncludes. rewrite existsb_exists. split.
  - intros (x & Hx & Heq). apply String.eqb_eq in Heq. now subst.
  - intros H. exists w. split; [assumption | apply String.eqb_refl].
Qed.

(** [s.includes(t)] holds exactly when [s] is [t] with something before and
    something after. *)
Lemma prefix_app (t s : string) :
  String.prefix t s = true <-> exists b, s = t +:+ b.
Proof.
  revert s. induction t as [|c t IH]; intros s.
  - split; [intros _; now exists s | intros _; now destruct s].
  - destruct s as [|d s]; simpl;
      [split; [discriminate | intros (b & Hb); discriminate]|].
    destruct (ascii_dec c d) as [->|ne].
    + rewrite IH. split; intros (b & Hb); exists b.
      * change (String d s = String d (t +:+ b)). now rewrite Hb.
      * change (String d s = String d (t +:+ b)) in Hb. now injection Hb.
    + split; [discriminate |]. intros (b & Hb).
      change (String d s = String c (t +:+ b)) in Hb. congruence.
Qed.

Lemma includes_spec (s t : string) :
  includes s t = true <-> exists a b, s = a +:+ t +:+ b.
Proof.
  induction s as [|c s IH].
  - cbn [includes]. rewrite orb_false_r, prefix_app. split.
    + intros (b & Hb). now exists "", b.
    + intros (a & b & Hab). destruct a as [|d a]; [now exists b | discriminate].
  - cbn [includes]. rewrite orb_true_iff, IH, prefix_app. split.
    + intros [(b & Hb) | (a & b & Hab)].
      * now exists "", b.
      * exists (String c a), b.
        change (String c s = String c (a +:+ t +:+ b)). now rewrite Hab.
    + intros (a & b & Hab). destruct a as [|d a].
      * left. now exists b.
      * right. exists a, b.
        change (String c s = String d (a +:+ t +:+ b)) in Hab. congruence.
Qed.

(** ** The stable sort puts a first best element at the head *)

Section FirstBest.
Context {A : Type} (score : A -> Z).

Lemma sort_cons_head (x : A * Z) (l : list (A * Z)) :
  Search.sort (fun a b => snd b - snd a) (x :: l) =
  match Search.sort (fun a b => snd b - snd a) l with
  | [] => [x]
  | y :: l' =>
      if snd y - snd x <=? 0
      then x :: y :: l'
      else y :: Search.insertSorted (fun a b => snd b - snd a) x l'
  end.
Proof.
  unfold Search.sort. cbn [fold_right].
  now destruct (fold_right _ _ _).
Qed.

Lemma In_insertSorted (cmp : A * Z -> A * Z -> Z) (p z : A * Z) (s : list (A * Z)) :
  In p (Search.insertSorted cmp z s) -> p = z \/ In p s.
Proof.
  induction s as [|q s IH]; simpl.
  - intros [->|[]]. now left.
  - destruct (_ <=? _); simpl.
    + intros [->|H]; [now left | now right].
    + intros [->|H]; [right; now left|].
      destruct (IH H); [now left | right; now right].
Qed.

Lemma In_sort (cmp : A * Z -> A * Z -> Z) (p : A * Z) (m : list (A * Z)) :
  In p (Search.sort cmp m) -> In p m.
Proof.
  induction m as [|z m IH]; [tauto|].
  unfold Search.sort. cbn [fold_right]. intros Hp.
  destruct (In_insertSorted _ _ _ _ Hp) as [->|H]; [now left | right; now apply IH].
Qed.

Lemma bestOf_cons (x : A) (l : list A) :
  bestOf score (x :: l) =
  if 0 <? score x then
    match bestOf score l with
    | None => Some x
    | Some y => if score y <=? score x then Some x else Some y
    end
  else bestOf score l.
Proof.
  unfold bestOf. cbn [List.map List.filter snd].
  destruct (0 <? score x) eqn:Hpos; [|reflexivity].
  rewrite sort_cons_head.
  destruct (Search.sort _ _) as [|[y sy] l'] eqn:Hsort; [reflexivity|].
  assert (Hsy : sy = score y).
  { assert (Hin : In (y, sy) (Search.sort (fun a b => snd b - snd a)
                     (List.filter (fun p : A * Z => 0 <? snd p)
                        (List.map (fun x => (x, score x)) l))))
      by (rewrite Hsort; now left).
    apply In_sort, filter_In in Hin as [Hin _].
    apply in_map_iff in Hin as (z & Hz & _). now inversion Hz. }
  subst sy. cbn [snd fst].
  replace (score y - score x <=? 0) with (score y <=? score x)
    by (destruct (Z.leb_spec (score y) (score x)),
                 (Z.leb_spec (score y - score x) 0); auto; lia).
  now destruct (score y <=? score x).
Qed.

Lemma bestOf_None (l : list A) :
  bestOf score l = None <-> forall x, In x l -> score x <= 0.
Proof.
  induction l as [|x l IH].
  - split; [intros _ y [] | reflexivity].
  - rewrite bestOf_cons. destruct (Z.ltb_spec 0 (score x)) as [Hpos|Hneg].
    + split.
      * destruct (bestOf score l) as [y|]; [destruct (_ <=? _)|]; discriminate.
      * intros H. specialize (H x (or_introl eq_refl)). lia.
    + rewrite IH. split.
      * intros H y [<-|Hy]; [assumption | now apply H].
      * intros H y Hy. apply H. now right.
Qed.

(** The entry returned is the first one, in list order, of highest score,
    and that score is positive. *)
Lemma bestOf_Some (l : list A) (x : A) :
  bestOf score l = Some x ->
  exists i : nat,
    l !! i = Some x /\ 0 < score x /\
    forall (j : nat) (y : A), l !! j = Some y ->
      score y <= score x /\ ((j < i)%nat -> score y < score x).
Proof.
  revert x. induction l as [|a l IH]; intros x; [discriminate|].
  rewrite bestOf_cons.
  destruct (Z.ltb_spec 0 (score a)) as [Hpos|Hneg].
  - destruct (bestOf score l) as [y|] eqn:Hbest.
    + destruct (IH y eq_refl) as (i & Hi & Hy & Hmax).
      destruct (Z.leb_spec (score y) (score a)) as [Hle|Hlt]; intros [= <-].
      * exists 0%nat. split; [reflexivity|]. split; [assumption|].
        intros [|j] z Hz; simpl in Hz.
        -- injection Hz as <-. split; lia.
        -- destruct (Hmax j z Hz). split; lia.
      * exists (S i). split; [exact Hi|]. split; [assumption|].
        intros [|j] z Hz; simpl in Hz.
        -- injection Hz as <-. split; lia.
        -- destruct (Hmax j z Hz) as [H1 H2]. split; [assumption|].
           intros Hj. apply H2. lia.
    + intros [= <-]. exists 0%nat. split; [reflexivity|]. split; [assumption|].
      intros [|j] z Hz; simpl in Hz.
      * injection Hz as <-. split; lia.
      * apply list_elem_of_lookup_2, list_elem_of_In in Hz.
        pose proof (proj1 (bestOf_None l) Hbest z Hz). split; lia.
  - intros Hx. destruct (IH x Hx) as (i & Hi & Hy & Hmax).
    exists (S i). split; [exact Hi|]. split; [assumption|].
    intros [|j] z Hz; simpl in Hz.
    + injection Hz as <-. split; lia.
    + destruct (Hmax j z Hz) as [H1 H2]. split; [assumption|].
      intros Hj. apply H2. lia.
Qed.

Lemma bestOf_ext (score' : A -> Z) (l : list A) :
  (forall x, score x = score' x) -> bestOf score l = bestOf score' l.
Proof.
  intros H. unfold bestOf.
  rewrite (map_ext (fun x => (x, score x)) (fun x => (x, score' x))); [reflexivity|].
  intros x. now rewrite H.
Qed.

End FirstBest.

(** ** The keyword component of the score *)

Lemma filter_length_split {A : Type} (P Q : A -> bool) (l : list A) :
  (forall x, Q x = true -> P x = true) ->
  length (List.filter P l) =
  (length (List.filter Q l) + length (List.filter (fun x => P x && negb (Q x)) l))%nat.
Proof.
  intros HQP. induction l as [|x l IH]; [reflexivity|].
  cbn [List.filter]. destruct (Q x) eqn:HQ.
  - rewrite (HQP x HQ). cbn. now rewrite IH.
  - destruct (P x); cbn; rewrite IH; lia.
Qed.

Lemma exact_is_partial (questionWords : list string) (w : string) :
  Search.isExactMatch questionWords w = true ->
  Search.isPartialMatch questionWords w = true.
Proof.
  unfold Search.isExactMatch, Search.isPartialMatch. intros H.
  apply arrayIncludes_In in H. apply existsb_exists.
  exists w. split; [assumption|]. now rewrite includes_refl.
Qed.

(** C1, as the code has it.  A token equal to a word of the question is
    counted by [matchCount] and again by [partialMatches], so it brings
    20 + 5; a token only in a substring relation brings 5.  The words of the
    question are filtered by length only. *)
Theorem keywordScore_exact_25_partial_5 :
  forall (expanded : list string) (entry : KnowledgeEntry),
    Search.keywordScore expanded entry =
      20 * Z.of_nat (length (exactTokens expanded entry))
      + 5 * (Z.of_nat (length (exactTokens expanded entry))
             + Z.of_nat (length (partialOnlyTokens expanded entry)))
    /\ Search.keywordScore expanded entry =
         25 * Z.of_nat (length (exactTokens expanded entry))
         + 5 * Z.of_nat (length (partialOnlyTokens expanded entry)).
Proof.
  intros expanded entry.
  assert (H : Search.partialMatches expanded entry =
              Z.of_nat (length (exactTokens expanded entry))
              + Z.of_nat (length (partialOnlyTokens expanded entry))).
  { unfold Search.partialMatches, exactTokens, partialOnlyTokens.
    rewrite <- Nat2Z.inj_add. f_equal.
    apply filter_length_split. intros w. apply exact_is_partial. }
  assert (H' : Search.matchCount expanded entry =
               Z.of_nat (length (exactTokens expanded entry))) by reflexivity.
  unfold Search.keywordScore. rewrite H, H'. split; lia.
Qed.

(** C1 as stated fails: for the query ["haircut"] and the seed entry
    "How much does a haircut cost?" the code adds 25, the stated formula 20. *)
Lemma keywordScore_not_as_stated :
  Search.expandedQueryWordsOf (trim (toLowerCase "haircut")) = Returns ["haircut"]
  /\ Search.keywordScore ["haircut"] Seed.haircut = 25
  /\ SearchSpec.keywordScore ["haircut"] Seed.haircut = 20
  /\ Search.keywordScore ["haircut"] Seed.haircut
     <> SearchSpec.keywordScore ["haircut"] Seed.haircut.
Proof. vm_compute. repeat split; congruence. Qed.

(** The stop words are not removed from the question either: ["where"], a
    synonym of ["location"], matches the word "where" of the question. *)
Example keywordScore_question_keeps_stop_words :
  Search.expandedQueryWordsOf (trim (toLowerCase "location"))
    = Returns ["location"; "address"; "where"; "find"]
  /\ Search.keywordScore ["location"; "address"; "where"; "find"] Seed.location = 25
  /\ SearchSpec.keywordScore ["location"; "address"; "where"; "find"] Seed.location = 0.
Proof. vm_compute. repeat split. Qed.

(** ** Selection of the best entry *)

Lemma searchKnowledge_bestOf (knowledge : list KnowledgeEntry) (query : string)
      (expanded : list string) :
  Search.expandedQueryWordsOf (normalize query) = Returns expanded ->
  Search.searchKnowledge knowledge query =
  Returns (bestOf (Search.scoreEntry (normalize query) expanded) knowledge).
Proof.
  intros H. unfold Search.searchKnowledge. fold (normalize query). now rewrite H.
Qed.

(** Whenever the expansion of the query returns, the search returns the
    first entry of highest score among those of positive score, and nothing
    exactly when no entry has a positive score. *)
Lemma searchKnowledge_first_highest (knowledge : list KnowledgeEntry)
      (query : string) (expanded : list string) :
  Search.expandedQueryWordsOf (normalize query) = Returns expanded ->
  let score := Search.scoreEntry (normalize query) expanded in
  exists result,
    Search.searchKnowledge knowledge query = Returns result
    /\ (result = None <-> forall e, In e knowledge -> score e <= 0)
    /\ forall e, result = Some e ->
         exists i : nat,
           knowledge !! i = Some e /\ 0 < score e /\
           forall (j : nat) (e' : KnowledgeEntry), knowledge !! j = Some e' ->
             score e' <= score e /\ ((j < i)%nat -> score e' < score e).
Proof.
  intros H score. eexists.
  split; [apply (searchKnowledge_bestOf _ _ _ H)|]. split.
  - apply bestOf_None.
  - intros e. apply bestOf_Some.
Qed.

(** The expansion throws exactly on a query word that names a property
    inherited from [Object.prototype]. *)
Lemma synonyms_inherited (w : string) :
  Search.synonyms w = Search.InheritedObject <->
  w = "constructor" \/ w = "__proto__".
Proof.
  unfold Search.synonyms, Search.inheritedProperty. split.
  - destruct (Search.ownProperty _ _); [discriminate|].
    destruct (String.eqb_spec w "constructor"); [now left|].
    destruct (String.eqb_spec w "__proto__"); [now right | discriminate].
  - now intros [-> | ->].
Qed.

Lemma addSynonyms_throws (queryWords expanded : list string) :
  (exists e, Search.addSynonyms expanded queryWords = Throws e) <->
  exists w, In w queryWords /\ (w = "constructor" \/ w = "__proto__").
Proof.
  revert expanded. induction queryWords as [|w ws IH]; intros expanded.
  - split; [intros (e & He); discriminate | intros (w & [] & _)].
  - cbn [Search.addSynonyms].
    destruct (Search.synonyms w) eqn:Hw.
    + rewrite IH. split.
      * intros (x & Hx & Hc). exists x. split; [now right | assumption].
      * intros (x & [<-|Hx] & Hc); [|now exists x].
        apply synonyms_inherited in Hc. congruence.
    + rewrite IH. split.
      * intros (x & Hx & Hc). exists x. split; [now right | assumption].
      * intros (x & [<-|Hx] & Hc); [|now exists x].
        apply synonyms_inherited in Hc. congruence.
    + split.
      * intros _. exists w. split; [now left | now apply synonyms_inherited].
      * intros _. now exists TypeError.
Qed.

Lemma searchKnowledge_throws_iff (knowledge : list KnowledgeEntry) (query : string) :
  (exists e, Search.searchKnowledge knowledge query = Throws e) <->
  exists w, In w (Search.queryWordsOf (normalize query))
            /\ (w = "constructor" \/ w = "__proto__").
Proof.
  rewrite <- (addSynonyms_throws _
               (Search.newSet (Search.queryWordsOf (normalize query)))).
  unfold Search.searchKnowledge, Search.expandedQueryWordsOf. fold (normalize query).
  destruct (Search.addSynonyms _ _) as [ws|e].
  - split; intros (e & He); discriminate.
  - split; intros _; now exists e.
Qed.

(** C2 at the failing input: on the query ["constructor"] the search throws
    before it scores anything, whatever the knowledge base; with an empty
    knowledge base no entry has a positive score, and yet nothing is
    returned. *)
Theorem searchKnowledge_constructor_throws :
  (forall knowledge, Search.searchKnowledge knowledge "constructor" = Throws TypeError)
  /\ Search.searchKnowledge [] "constructor" <> Returns None
  /\ Search.searchKnowledge Seed.initialKnowledge "what is a constructor"
     = Throws TypeError.
Proof. repeat split; discriminate. Qed.

(** ** The empty query *)

Lemma scoreEntry_empty_query (entry : KnowledgeEntry) :
  Search.scoreEntry "" [] entry = 100 + Search.learnedBonus entry.
Proof.
  unfold Search.scoreEntry, Search.substringScore, Search.categoryScore,
    Search.keywordScore, Search.matchCount, Search.partialMatches.
  rewrite includes_empty. cbn [orb existsb List.filter length].
  rewrite andb_false_r. reflexivity.
Qed.

Lemma learnedBonus_cases (e : KnowledgeEntry) :
  (ke_source e = learned /\ isLearned e = true /\ Search.learnedBonus e = 10)
  \/ (ke_source e = initial /\ isLearned e = false /\ Search.learnedBonus e = 0).
Proof.
  unfold isLearned, Search.learnedBonus.
  destruct (ke_source e); [right | left]; repeat split.
Qed.

Lemma bestOf_empty_query (knowledge : list KnowledgeEntry) :
  bestOf (fun e => 100 + Search.learnedBonus e) knowledge =
  match List.find isLearned knowledge with
  | Some e => Some e
  | None => head knowledge
  end.
Proof.
  assert (Hshape : forall l,
    match bestOf (fun e => 100 + Search.learnedBonus e) l with
    | None => l = []
    | Some b =>
        match List.find isLearned l with
        | Some e => b = e
        | None => head l = Some b /\ isLearned b = false
        end
    end).
  { induction l as [|a l IH]; [reflexivity|].
    rewrite bestOf_cons. cbn [List.find head].
    destruct (learnedBonus_cases a) as [(_ & Hla & Hba) | (_ & Hla & Hba)];
      rewrite Hla, Hba; cbn [Z.add Z.ltb Z.compare Pos.add Pos.succ].
    - destruct (bestOf _ l) as [y|]; [|reflexivity].
      destruct (learnedBonus_cases y) as [(_ & _ & Hby) | (_ & _ & Hby)];
        rewrite Hby; reflexivity.
    - destruct (bestOf _ l) as [y|]; [|now subst l].
      destruct (List.find isLearned l) as [e|] eqn:He.
      + subst y. apply find_some in He as [_ He].
        destruct (learnedBonus_cases e) as [(_ & _ & Hbe) | (_ & Hle & _)];
          [rewrite Hbe; reflexivity | congruence].
      + destruct IH as [_ Hly].
        destruct (learnedBonus_cases y) as [(_ & Hly' & _) | (_ & _ & Hby)];
          [congruence | rewrite Hby; cbn; now split]. }
  specialize (Hshape knowledge).
  destruct (bestOf _ knowledge) as [b|].
  - destruct (List.find isLearned knowledge); [now subst | now destruct Hshape as [-> _]].
  - now subst.
Qed.

(** C7, as the code has it.  The empty string is a substring of every
    question, so on the empty query every entry scores 100, or 110 when it
    was learned; the search returns the first learned entry, or else the
    first entry, and nothing only for an empty knowledge base. *)
Theorem searchKnowledge_empty_query :
  forall knowledge : list KnowledgeEntry,
    Search.expandedQueryWordsOf (normalize "") = Returns []
    /\ (forall e, Search.scoreEntry (normalize "") [] e = 100 + Search.learnedBonus e)
    /\ Search.searchKnowledge knowledge "" =
         Returns (match List.find isLearned knowledge with
                  | Some e => Some e
                  | None => head knowledge
                  end)
    /\ (Search.searchKnowledge knowledge "" = Returns None <-> knowledge = []).
Proof.
  intros knowledge.
  assert (Hres : Search.searchKnowledge knowledge "" =
                 Returns (match List.find isLearned knowledge with
                          | Some e => Some e
                          | None => head knowledge
                          end)).
  { rewrite (searchKnowledge_bestOf knowledge "" []) by reflexivity.
    change (normalize "") with "". f_equal.
    rewrite <- bestOf_empty_query.
    apply bestOf_ext, scoreEntry_empty_query. }
  split; [reflexivity|]. split; [apply scoreEntry_empty_query|].
  split; [exact Hres|]. rewrite Hres. split.
  - intros [= H]. destruct knowledge as [|a l]; [reflexivity|].
    cbn in H. destruct (isLearned a); [discriminate|].
    destruct (List.find isLearned l); discriminate.
  - now intros ->.
Qed.

(** C7 as stated fails: with the single seed entry about business hours the
    empty query returns that entry. *)
Lemma searchKnowledge_empty_query_matches :
  Search.searchKnowledge [Seed.hours] "" = Returns (Some Seed.hours)
  /\ Search.searchKnowledge [Seed.hours] "" <> Returns None.
Proof. vm_compute. split; [reflexivity | discriminate]. Qed.

(** ** Updating one help request *)

Lemma findIndex_Some (requests : list HelpRequest) (id : string) (i : nat) :
  findIndex requests id = Some i ->
  exists r, requests !! i = Some r /\ hr_id r = id
            /\ forall (j : nat) (r' : HelpRequest),
                 (j < i)%nat -> requests !! j = Some r' -> hr_id r' <> id.
Proof.
  revert i. induction requests as [|a l IH]; intros i; [discriminate|].
  cbn [findIndex]. destruct (String.eqb_spec (hr_id a) id) as [Heq|Hne].
  - intros [= <-]. exists a. repeat split; [assumption|]. intros j r' Hj. lia.
  - destruct (findIndex l id) as [k|]; [|discriminate].
    intros [= <-]. destruct (IH k eq_refl) as (r & Hr & Hid & Hfirst).
    exists r. repeat split; [assumption..|].
    intros [|j] r' Hj Hr'; simpl in Hr'.
    + now injection Hr' as <-.
    + apply (Hfirst j); [lia | assumption].
Qed.

Lemma findIndex_None (requests : list HelpRequest) (id : string) :
  findIndex requests id = None <-> forall r, In r requests -> hr_id r <> id.
Proof.
  induction requests as [|a l IH]; cbn [findIndex].
  - split; [intros _ r [] | reflexivity].
  - destruct (String.eqb_spec (hr_id a) id) as [Heq|Hne].
    + split; [discriminate|]. intros H. now destruct (H a (or_introl eq_refl)).
    + destruct (findIndex l id) as [k|].
      * split; [discriminate|]. intros H.
        assert (Hk : Some k = None) by (apply IH; intros r Hr; apply H; now right).
        discriminate.
      * split; [|reflexivity]. intros _ r [<-|Hr]; [assumption|].
        now apply (proj1 IH).
Qed.

Lemma findIndex_present (requests : list HelpRequest) (id : string) :
  (exists r, In r requests /\ hr_id r = id) ->
  exists i, findIndex requests id = Some i.
Proof.
  intros (r & Hr & Hid). destruct (findIndex requests id) as [i|] eqn:Hfind.
  - now exists i.
  - now destruct (proj1 (findIndex_None requests id) Hfind r Hr).
Qed.

Lemma spread_unnamed (old : HelpRequest) (updates : HelpRequestUpdates) :
  unnamedFieldsKept updates old (spread old updates).
Proof.
  unfold unnamedFieldsKept, spread. cbn.
  repeat split; intros ->; reflexivity.
Qed.

Section UpdateHelpRequest.
Context {Handle : Type}.
Implicit Types (w : @World Handle) (id : string) (updates : HelpRequestUpdates).

Lemma bind_run {A B : Type} (m : M A) (k : A -> M B) w (a : A) w' :
  m w = (a, w') -> bind m k w = k a w'.
Proof. intros H. unfold bind. now rewrite H. Qed.

Lemma updateHelpRequest_found id updates w (i : nat) (old : HelpRequest) :
  findIndex (helpRequests w) id = Some i ->
  helpRequests w !! i = Some old ->
  updateHelpRequest id updates w =
  (Some (spread old updates),
   mkWorld (<[i := spread old updates]> (helpRequests w)) (knowledgeBase w)
           (activeSessions w) (notices w) (clockReads w) (randomDraws w)).
Proof.
  intros Hfind Hold. unfold updateHelpRequest.
  rewrite (bind_run getAllHelpRequests _ w (helpRequests w) w eq_refl).
  rewrite Hfind, Hold. reflexivity.
Qed.

Lemma updateHelpRequest_missing id updates w :
  findIndex (helpRequests w) id = None ->
  updateHelpRequest id updates w = (None, w).
Proof.
  intros Hfind. unfold updateHelpRequest.
  rewrite (bind_run getAllHelpRequests _ w (helpRequests w) w eq_refl).
  rewrite Hfind. reflexivity.
Qed.

(** C10.  When a record bears the id, [updateHelpRequest] replaces the
    first such record by its update and returns it: the list keeps its
    length, every other position keeps its record, the fields the update
    does not name keep their values, and nothing else in the system
    changes.  When no record bears the id, it returns [null] and changes
    nothing. *)
Theorem updateHelpRequest_frame :
  forall id updates w,
    ((exists r, In r (helpRequests w) /\ hr_id r = id) ->
     exists (i : nat) (old new : HelpRequest),
       helpRequests w !! i = Some old /\ hr_id old = id
       /\ (forall (j : nat) (r : HelpRequest),
             (j < i)%nat -> helpRequests w !! j = Some r -> hr_id r <> id)
       /\ fst (updateHelpRequest id updates w) = Some new
       /\ new = spread old updates
       /\ unnamedFieldsKept updates old new
       /\ let w' := snd (updateHelpRequest id updates w) in
          length (helpRequests w') = length (helpRequests w)
          /\ helpRequests w' !! i = Some new
          /\ (forall j : nat, j <> i -> helpRequests w' !! j = helpRequests w !! j)
          /\ knowledgeBase w' = knowledgeBase w
          /\ activeSessions w' = activeSessions w
          /\ notices w' = notices w)
    /\ ((forall r, In r (helpRequests w) -> hr_id r <> id) ->
        updateHelpRequest id updates w = (None, w)).
Proof.
  intros id updates w. split.
  - intros Hpresent. destruct (findIndex_present _ _ Hpresent) as (i & Hfind).
    destruct (findIndex_Some _ _ _ Hfind) as (old & Hold & Hid & Hfirst).
    exists i, old, (spread old updates).
    rewrite (updateHelpRequest_found _ _ _ _ _ Hfind Hold).
    cbn [fst snd helpRequests knowledgeBase activeSessions notices].
    do 5 (split; [first [assumption | reflexivity]|]).
    split; [apply spread_unnamed|].
    split; [apply length_insert|].
    split; [apply list_lookup_insert_eq; now apply lookup_lt_Some in Hold|].
    split; [intros j Hj; now apply list_lookup_insert_ne|].
    repeat split.
  - intros Habsent. apply updateHelpRequest_missing. now apply findIndex_None.
Qed.

End UpdateHelpRequest.

Lemma updateHelpRequest_frame_witness :
  (exists (i : nat) (old new : HelpRequest),
     helpRequests (Example.worldWith [Example.parkingPending]) !! i = Some old
     /\ fst (updateHelpRequest "req_1_a" (statusOnly RESOLVED)
               (Example.worldWith [Example.parkingPending])) = Some new
     /\ hr_question new = hr_question old)
  /\ updateHelpRequest "req_2_b" (statusOnly RESOLVED)
       (Example.worldWith [Example.parkingPending])
     = (None, Example.worldWith [Example.parkingPending]).
Proof.
  pose proof (updateHelpRequest_frame "req_1_a" (statusOnly RESOLVED)
                (Example.worldWith [Example.parkingPending])) as [Hpresent _].
  pose proof (updateHelpRequest_frame "req_2_b" (statusOnly RESOLVED)
                (Example.worldWith [Example.parkingPending])) as [_ Habsent].
  split.
  - destruct Hpresent as (i & old & new & Hold & _ & _ & Hnew & _ & Hkept & _).
    + exists Example.parkingPending. split; [now left | reflexivity].
    + exists i, old, new. repeat split; [assumption..|].
      now apply Hkept.
  - apply Habsent. intros r [<-|[]]. discriminate.
Defined.

(** ** Delivery to a live session *)

Section Delivery.
Context {Handle : Type}.
Variable say : Handle -> string -> bool.
Implicit Types (w : @World Handle) (customerPhone message : string).

Lemma sendMessageToCustomer_lookup customerPhone message w :
  sendMessageToCustomer say customerPhone message w =
  match activeSessions w !! customerPhone with
  | None => (false, w)
  | Some s =>
      if say (as_session s) message then (true, w)
      else (false,
            mkWorld (helpRequests w) (knowledgeBase w)
                    (delete customerPhone (activeSessions w)) (notices w)
                    (clockReads w) (randomDraws w))
  end.
Proof.
  unfold sendMessageToCustomer.
  rewrite (bind_run getSessions _ w (activeSessions w) w eq_refl).
  destruct (activeSessions w !! customerPhone) as [s|]; [|reflexivity].
  now destruct (say (as_session s) message).
Qed.

(** C8.  [sendMessageToCustomer] without a session for the customer
    returns [false] and changes nothing; with a session whose [say] fails
    it removes that session, and no other, and returns [false]; with a
    session whose [say] succeeds it returns [true] and the session is
    still registered. *)
Theorem sendMessageToCustomer_outcomes :
  forall customerPhone message w,
    (activeSessions w !! customerPhone = None ->
     sendMessageToCustomer say customerPhone message w = (false, w))
    /\ (forall s : ActiveSession,
          activeSessions w !! customerPhone = Some s ->
          say (as_session s) message = false ->
          let w' := snd (sendMessageToCustomer say customerPhone message w) in
          fst (sendMessageToCustomer say customerPhone message w) = false
          /\ activeSessions w' = delete customerPhone (activeSessions w)
          /\ activeSessions w' !! customerPhone = None
          /\ forall other : string, other <> customerPhone ->
               activeSessions w' !! other = activeSessions w !! other)
    /\ (forall s : ActiveSession,
          activeSessions w !! customerPhone = Some s ->
          say (as_session s) message = true ->
          sendMessageToCustomer say customerPhone message w = (true, w)
          /\ activeSessions (snd (sendMessageToCustomer say customerPhone message w))
             !! customerPhone = Some s).
Proof.
  intros customerPhone message w. rewrite sendMessageToCustomer_lookup.
  split; [|split].
  - intros ->. reflexivity.
  - intros s Hs Hsay. rewrite Hs, Hsay. cbn.
    split; [reflexivity|]. split; [reflexivity|].
    split; [apply lookup_delete_eq|].
    intros other Hother. now apply lookup_delete_ne.
  - intros s Hs Hsay. rewrite Hs, Hsay. cbn. now split.
Qed.

End Delivery.

Lemma sendMessageToCustomer_outcomes_witness :
  sendMessageToCustomer Example.sayOk Example.phone "hello"
    (Example.worldWith []) = (false, Example.worldWith [])
  /\ fst (sendMessageToCustomer Example.sayFails Example.phone "hello"
            (Example.worldInCall [])) = false
  /\ activeSessions (snd (sendMessageToCustomer Example.sayFails Example.phone "hello"
                            (Example.worldInCall []))) !! Example.phone = None
  /\ sendMessageToCustomer Example.sayOk Example.phone "hello"
       (Example.worldInCall []) = (true, Example.worldInCall []).
Proof.
  pose proof (sendMessageToCustomer_outcomes Example.sayOk Example.phone "hello"
                (Example.worldWith [])) as (Hnone & _ & _).
  pose proof (sendMessageToCustomer_outcomes Example.sayFails Example.phone "hello"
                (Example.worldInCall [])) as (_ & Hfail & _).
  pose proof (sendMessageToCustomer_outcomes Example.sayOk Example.phone "hello"
                (Example.worldInCall [])) as (_ & _ & Hok).
  assert (Hlive : activeSessions (Example.worldInCall []) !! Example.phone
                  = Some Example.liveSession) by apply lookup_singleton_eq.
  split; [apply Hnone; reflexivity|].
  destruct (Hfail Example.liveSession Hlive eq_refl) as (Hres & _ & Hgone & _).
  destruct (Hok Example.liveSession Hlive eq_refl) as (Hsame & _).
  repeat split; assumption.
Defined.

(** ** Running the operations *)

Section Runs.
Context {Handle : Type}.
Variable say : Handle -> string -> bool.
Variable clock : nat -> Z.
Variable random : nat -> string.
Implicit Types (w : @World Handle).

Lemma now_run w :
  now clock w =
  (clock (clockReads w),
   mkWorld (helpRequests w) (knowledgeBase w) (activeSessions w) (notices w)
           (S (clockReads w)) (randomDraws w)).
Proof. reflexivity. Qed.

Lemma addKnowledge_run (entry : NewKnowledge) w :
  let n := clockReads w in
  let e :=
    {| ke_id := "kb_" +:+ pretty (clock n) +:+ "_" +:+ random (randomDraws w);
       ke_question := nk_question entry;
       ke_answer := nk_answer entry;
       ke_category := nk_category entry;
       ke_createdAt := clock (S n);
       ke_updatedAt := clock (S (S n));
       ke_source := nk_source entry |} in
  addKnowledge clock random entry w =
  (e, mkWorld (helpRequests w) (knowledgeBase w ++ [e]) (activeSessions w)
              (notices w) (S (S (S n))) (S (randomDraws w))).
Proof. reflexivity. Qed.

Lemma sendMessageToCustomer_run (customerPhone message : string) w :
  exists (delivered : bool) (sessions : gmap string ActiveSession),
    sendMessageToCustomer say customerPhone message w =
    (delivered, mkWorld (helpRequests w) (knowledgeBase w) sessions (notices w)
                        (clockReads w) (randomDraws w)).
Proof.
  rewrite sendMessageToCustomer_lookup.
  destruct (activeSessions w !! customerPhone) as [s|];
    [destruct (say (as_session s) message)|].
  - exists true, (activeSessions w). now destruct w.
  - exists false, (delete customerPhone (activeSessions w)). reflexivity.
  - exists false, (activeSessions w). now destruct w.
Qed.

Lemma notifyCustomer_run (customerPhone message : string) w :
  exists (delivered : bool) (sessions : gmap string ActiveSession) (reads : nat),
    notifyCustomer say clock customerPhone message w =
    (tt, mkWorld (helpRequests w) (knowledgeBase w) sessions
                 (notices w ++ [mkCustomerNotice customerPhone message delivered])
                 reads (randomDraws w)).
Proof.
  destruct (sendMessageToCustomer_run customerPhone message w)
    as (delivered & sessions & Hsend).
  unfold notifyCustomer. rewrite (bind_run _ _ _ _ _ Hsend).
  exists delivered, sessions. destruct delivered.
  - exists (S (clockReads w)). reflexivity.
  - exists (clockReads w). reflexivity.
Qed.

End Runs.

(** ** The supervisor's answer *)

Section Respond.
Context {Handle : Type}.
Variable say : Handle -> string -> bool.
Variable clock : nat -> Z.
Variable random : nat -> string.
Implicit Types (w : @World Handle) (id : string) (answer : option string).

Lemma respond_no_answer id answer w :
  truthyOpt answer = false ->
  respond say clock random id answer w = (BadRequest400, w).
Proof. intros H. unfold respond. now rewrite H. Qed.

Lemma truthyOpt_Some answer :
  truthyOpt answer = true -> exists a, answer = Some a /\ truthy a = true.
Proof. destruct answer as [a|]; [intros H; now exists a | discriminate]. Qed.

Lemma respond_unknown id answer w :
  truthyOpt answer = true ->
  findIndex (helpRequests w) id = None ->
  respond say clock random id answer w =
  (NotFound404,
   mkWorld (helpRequests w) (knowledgeBase w) (activeSessions w) (notices w)
           (S (clockReads w)) (randomDraws w)).
Proof.
  intros Hanswer Hfind.
  unfold respond. rewrite Hanswer. cbn [negb].
  rewrite (bind_run _ _ _ _ _ (now_run clock w)).
  set (w1 := mkWorld (helpRequests w) (knowledgeBase w) (activeSessions w)
                     (notices w) (S (clockReads w)) (randomDraws w)).
  rewrite (bind_run _ _ _ _ _ (updateHelpRequest_missing id _ w1 Hfind)).
  reflexivity.
Qed.

Lemma respond_found id (a : string) w (i : nat) (old : HelpRequest) :
  truthy a = true ->
  findIndex (helpRequests w) id = Some i ->
  helpRequests w !! i = Some old ->
  let updated := spread old (resolution (clock (clockReads w)) a) in
  let w' := snd (respond say clock random id (Some a) w) in
  fst (respond say clock random id (Some a) w) = Ok200 updated
  /\ helpRequests w' = <[i := updated]> (helpRequests w)
  /\ (exists e, knowledgeBase w' = (knowledgeBase w ++ [e])%list
                /\ ke_question e = hr_question old
                /\ ke_answer e = a
                /\ ke_category e = Some "supervisor-learned"
                /\ ke_source e = learned)
  /\ (exists delivered,
        notices w' =
        (notices w ++
           [mkCustomerNotice (hr_customerPhone old) (answerMessage a) delivered])%list).
Proof.
  intros Ha Hfind Hold updated w'. subst w'.
  destruct (respond say clock random id (Some a) w) as [reply final] eqn:Hrun.
  unfold respond in Hrun. cbn [truthyOpt] in Hrun. rewrite Ha in Hrun.
  cbn [negb default] in Hrun.
  rewrite (bind_run _ _ _ _ _ (now_run clock w)) in Hrun.
  set (w1 := mkWorld (helpRequests w) (knowledgeBase w) (activeSessions w)
                     (notices w) (S (clockReads w)) (randomDraws w)) in Hrun.
  rewrite (bind_run _ _ _ _ _ (updateHelpRequest_found id _ w1 i old Hfind Hold))
    in Hrun.
  rewrite (bind_run _ _ _ _ _ (addKnowledge_run clock random _ _)) in Hrun.
  unfold followUpWithCustomer in Hrun.
  match type of Hrun with
  | bind (notifyCustomer _ _ ?p ?m) _ ?w0 = _ =>
      destruct (notifyCustomer_run say clock p m w0)
        as (delivered & sessions & reads & Hnotify)
  end.
  rewrite (bind_run _ _ _ _ _ Hnotify) in Hrun. unfold ret in Hrun.
  injection Hrun as <- <-.
  cbn [fst snd helpRequests knowledgeBase notices].
  split; [reflexivity|]. split; [reflexivity|].
  split; [eexists; now repeat split | now exists delivered].
Qed.

(** C9.  Without an answer the route replies 400 and nothing has changed;
    with an answer and an id that no request bears it replies 404, and the
    help requests and the knowledge base (as the sessions and the console)
    are as before; with an answer and an id that a request bears it
    replies with the updated request, which is now stored in place of the
    old one. *)
Theorem respond_status_codes :
  forall id answer w,
    respond say clock random id None w = (BadRequest400, w)
    /\ (truthyOpt answer = false ->
        respond say clock random id answer w = (BadRequest400, w))
    /\ (truthyOpt answer = true ->
        (forall r, In r (helpRequests w) -> hr_id r <> id) ->
        let w' := snd (respond say clock random id answer w) in
        fst (respond say clock random id answer w) = NotFound404
        /\ helpRequests w' = helpRequests w
        /\ knowledgeBase w' = knowledgeBase w
        /\ activeSessions w' = activeSessions w
        /\ notices w' = notices w)
    /\ (truthyOpt answer = true ->
        (exists r, In r (helpRequests w) /\ hr_id r = id) ->
        exists (i : nat) (old : HelpRequest) (a : string),
          answer = Some a
          /\ helpRequests w !! i = Some old /\ hr_id old = id
          /\ let updated := spread old (resolution (clock (clockReads w)) a) in
             fst (respond say clock random id answer w) = Ok200 updated
             /\ helpRequests (snd (respond say clock random id answer w)) !! i
                = Some updated
             /\ hr_status updated = RESOLVED
             /\ hr_supervisorAnswer updated = Some a
             /\ hr_resolvedAt updated = Some (clock (clockReads w))).
Proof.
  intros id answer w.
  split; [now apply respond_no_answer|].
  split; [apply respond_no_answer|]. split.
  - intros Hanswer Habsent. apply findIndex_None in Habsent.
    rewrite (respond_unknown _ _ _ Hanswer Habsent). cbn. repeat split.
  - intros Hanswer Hpresent.
    destruct (truthyOpt_Some _ Hanswer) as (a & -> & Ha).
    destruct (findIndex_present _ _ Hpresent) as (i & Hfind).
    destruct (findIndex_Some _ _ _ Hfind) as (old & Hold & Hid & _).
    destruct (respond_found id a w i old Ha Hfind Hold) as (Hres & Hreqs & _).
    exists i, old, a. do 3 (split; [first [reflexivity | assumption]|]).
    cbn zeta. split; [exact Hres|]. split.
    + rewrite Hreqs. apply list_lookup_insert_eq. now apply lookup_lt_Some in Hold.
    + repeat split.
Qed.

(** C5.  Whenever the route replies with success, the knowledge base has
    grown by exactly one entry, at its end: its source is [learned], its
    question is the question of the request that bore the id (which the
    update left as it was), and its answer is the answer supplied. *)
Theorem respond_learns_one_entry :
  forall id answer w (request : HelpRequest),
    fst (respond say clock random id answer w) = Ok200 request ->
    exists (i : nat) (old : HelpRequest) (a : string) (e : KnowledgeEntry),
      answer = Some a
      /\ helpRequests w !! i = Some old /\ hr_id old = id
      /\ knowledgeBase (snd (respond say clock random id answer w))
         = (knowledgeBase w ++ [e])%list
      /\ ke_source e = learned
      /\ ke_question e = hr_question old
      /\ ke_question e = hr_question request
      /\ ke_answer e = a.
Proof.
  intros id answer w request Hok.
  destruct (truthyOpt answer) eqn:Hanswer;
    [|rewrite (respond_no_answer _ _ _ Hanswer) in Hok; discriminate].
  destruct (findIndex (helpRequests w) id) as [i|] eqn:Hfind;
    [|rewrite (respond_unknown _ _ _ Hanswer Hfind) in Hok; discriminate].
  destruct (truthyOpt_Some _ Hanswer) as (a & -> & Ha).
  destruct (findIndex_Some _ _ _ Hfind) as (old & Hold & Hid & _).
  destruct (respond_found id a w i old Ha Hfind Hold)
    as (Hres & _ & (e & Hkb & Hq & Hans & _ & Hsrc) & _).
  rewrite Hres in Hok. injection Hok as <-.
  exists i, old, a, e. repeat split; assumption.
Qed.

(** Whatever the status of the request was, the route makes it [resolved]. *)
Lemma respond_resolves_any_status id (a : string) w (i : nat) (old : HelpRequest) :
  truthy a = true ->
  findIndex (helpRequests w) id = Some i ->
  helpRequests w !! i = Some old ->
  exists new,
    helpRequests (snd (respond say clock random id (Some a) w)) !! i = Some new
    /\ hr_status new = RESOLVED.
Proof.
  intros Ha Hfind Hold.
  destruct (respond_found id a w i old Ha Hfind Hold) as (_ & Hreqs & _).
  exists (spread old (resolution (clock (clockReads w)) a)).
  rewrite Hreqs. split; [|reflexivity].
  apply list_lookup_insert_eq. now apply lookup_lt_Some in Hold.
Qed.

End Respond.

Lemma respond_status_codes_witness :
  respond Example.sayOk Example.stillClock Example.suffix "req_1_a" (Some "")
    (Example.worldWith [Example.parkingPending])
  = (BadRequest400, Example.worldWith [Example.parkingPending])
  /\ fst (respond Example.sayOk Example.stillClock Example.suffix "req_2_b" (Some "Yes")
            (Example.worldWith [Example.parkingPending])) = NotFound404
  /\ exists updated,
       fst (respond Example.sayOk Example.stillClock Example.suffix "req_1_a" (Some "Yes")
              (Example.worldWith [Example.parkingPending])) = Ok200 updated
       /\ hr_supervisorAnswer updated = Some "Yes".
Proof.
  pose proof (respond_status_codes Example.sayOk Example.stillClock Example.suffix
                "req_1_a" (Some "") (Example.worldWith [Example.parkingPending]))
    as (_ & H400 & _).
  pose proof (respond_status_codes Example.sayOk Example.stillClock Example.suffix
                "req_2_b" (Some "Yes") (Example.worldWith [Example.parkingPending]))
    as (_ & _ & H404 & _).
  pose proof (respond_status_codes Example.sayOk Example.stillClock Example.suffix
                "req_1_a" (Some "Yes") (Example.worldWith [Example.parkingPending]))
    as (_ & _ & _ & H200).
  split; [apply H400; reflexivity|]. split.
  - apply H404; [reflexivity|]. intros r [<-|[]]. discriminate.
  - destruct H200 as (i & old & a & Ha & _ & _ & Hres & _ & _ & Hans & _).
    + reflexivity.
    + exists Example.parkingPending. split; [now left | reflexivity].
    + injection Ha as <-. eexists. split; [exact Hres | exact Hans].
Defined.

Lemma respond_learns_one_entry_witness :
  exists e : KnowledgeEntry,
    knowledgeBase (snd (respond Example.sayOk Example.stillClock Example.suffix
                          "req_1_a" (Some "Yes, free parking in the lot")
                          (Example.worldWith [Example.parkingPending])))
    = (Seed.initialKnowledge ++ [e])%list
    /\ ke_source e = learned
    /\ ke_question e = "Do you have parking?"
    /\ ke_answer e = "Yes, free parking in the lot".
Proof.
  destruct (respond_learns_one_entry Example.sayOk Example.stillClock Example.suffix
              "req_1_a" (Some "Yes, free parking in the lot")
              (Example.worldWith [Example.parkingPending])
              (spread Example.parkingPending
                 (resolution 1000 "Yes, free parking in the lot")))
    as (i & old & a & e & Ha & _ & _ & Hkb & Hsrc & _ & Hq & Hans).
  - reflexivity.
  - injection Ha as <-. exists e. repeat split; assumption.
Defined.

(** C3 at the failing input: a request whose status is [timeout] is answered
    through the route; the reply is a success and the stored status is now
    [resolved]. *)
Theorem respond_resolves_timed_out_request :
  let w := Example.worldWith [Example.parkingTimedOut] in
  let reply := respond Example.sayOk Example.stillClock Example.suffix
                 "req_1_a" (Some "Yes, free parking in the lot") w in
  hr_status Example.parkingTimedOut = TIMEOUT
  /\ exists r, fst reply = Ok200 r
               /\ helpRequests (snd reply) = [r]
               /\ hr_status r = RESOLVED.
Proof. cbn zeta. split; [reflexivity|]. eexists. repeat split. Qed.

(** ** The timeout sweep and the pending list *)

Lemma expired_pending (nowMs : Z) (r : HelpRequest) :
  expired nowMs r = true <-> hr_status r = PENDING /\ hr_timeoutAt r < nowMs.
Proof.
  unfold expired, isPending.
  rewrite andb_true_iff, bool_decide_eq_true, Z.ltb_lt. reflexivity.
Qed.

Lemma sweep_lookup (nowMs : Z) (requests : list HelpRequest) (i : nat) :
  sweep nowMs requests !! i =
  match requests !! i with
  | Some r => Some (if expired nowMs r then setStatus TIMEOUT r else r)
  | None => None
  end.
Proof.
  revert i. induction requests as [|a l IH]; intros [|i]; cbn; auto.
Qed.

(** The sweep moves a request from [pending] to [timeout] when its deadline
    has passed, and leaves every other request as it is; in particular it
    never touches a [resolved] or [timeout] request. *)
Lemma sweep_transitions (nowMs : Z) (requests : list HelpRequest) (i : nat)
      (r : HelpRequest) :
  requests !! i = Some r ->
  exists r', sweep nowMs requests !! i = Some r'
             /\ ((hr_status r = PENDING /\ hr_timeoutAt r < nowMs
                  /\ r' = setStatus TIMEOUT r)
                 \/ (~ (hr_status r = PENDING /\ hr_timeoutAt r < nowMs) /\ r' = r)).
Proof.
  intros Hr. rewrite sweep_lookup, Hr. eexists. split; [reflexivity|].
  destruct (expired nowMs r) eqn:Hexp.
  - left. apply expired_pending in Hexp as [? ?]. now repeat split.
  - right. split; [|reflexivity]. intros H. apply expired_pending in H. congruence.
Qed.

Lemma sweep_unchanged (nowMs : Z) (requests : list HelpRequest) :
  existsb (expired nowMs) requests = false -> sweep nowMs requests = requests.
Proof.
  induction requests as [|a l IH]; [reflexivity|].
  cbn [existsb sweep List.map]. intros H. apply orb_false_iff in H as [Ha Hl].
  rewrite Ha. f_equal. now apply IH.
Qed.

Lemma sweep_app (nowMs : Z) (l1 l2 : list HelpRequest) :
  sweep nowMs (l1 ++ l2)%list = (sweep nowMs l1 ++ sweep nowMs l2)%list.
Proof. apply map_app. Qed.

Section PendingList.
Context {Handle : Type}.
Variable clock : nat -> Z.
Variable random : nat -> string.
Implicit Types (w : @World Handle).

(** After the pending-list read the file holds the swept list, whether it
    was written or not. *)
Lemma getPendingHelpRequests_swept w :
  getPendingHelpRequests clock w =
  (List.filter isPending (sweep (clock (clockReads w)) (helpRequests w)),
   mkWorld (sweep (clock (clockReads w)) (helpRequests w)) (knowledgeBase w)
           (activeSessions w) (notices w) (S (clockReads w)) (randomDraws w)).
Proof.
  unfold getPendingHelpRequests.
  rewrite (bind_run getAllHelpRequests _ w (helpRequests w) w eq_refl).
  rewrite (bind_run _ _ _ _ _ (now_run clock w)).
  destruct (existsb _ _) eqn:Hchanges; [reflexivity|].
  rewrite (sweep_unchanged _ _ Hchanges). reflexivity.
Qed.

Lemma escalateToSupervisor_creates (context : EscalationContext) w :
  let n := clockReads w in
  let r :=
    {| hr_id := "req_" +:+ pretty (clock n) +:+ "_" +:+ random (randomDraws w);
       hr_customerPhone := ec_customerPhone context;
       hr_customerName := whenTruthy (ec_customerName context);
       hr_question := ec_question context;
       hr_context := whenTruthy (ec_conversationContext context);
       hr_status := PENDING;
       hr_createdAt := clock (S n);
       hr_resolvedAt := None;
       hr_supervisorAnswer := None;
       hr_timeoutAt := clock (S (S n)) + oneHour |} in
  escalateToSupervisor clock random context w =
  (hr_id r,
   mkWorld (helpRequests w ++ [r]) (knowledgeBase w) (activeSessions w)
           (notices w) (S (S (S n))) (S (randomDraws w))).
Proof. reflexivity. Qed.

(** C6, as the code has it.  A pending-list read that follows
    [escalateToSupervisor] and takes place before one hour has passed
    since [createdAt] returns the new request, with status [pending], and
    the file holds it.  Its [createdAt] is one reading of the clock and
    its [timeoutAt] is one hour after the next reading: never less than
    [createdAt] plus one hour, and exactly that when the two readings
    agree. *)
Theorem escalation_then_pending :
  forall (context : EscalationContext) w,
    let n := clockReads w in
    let id := fst (escalateToSupervisor clock random context w) in
    let w1 := snd (escalateToSupervisor clock random context w) in
    let pending := fst (getPendingHelpRequests clock w1) in
    let w2 := snd (getPendingHelpRequests clock w1) in
    clock (S n) <= clock (S (S n)) ->
    clock (clockReads w1) < clock (S n) + oneHour ->
    exists r : HelpRequest,
      In r pending /\ In r (helpRequests w2)
      /\ hr_id r = id /\ hr_status r = PENDING
      /\ hr_customerPhone r = ec_customerPhone context
      /\ hr_question r = ec_question context
      /\ hr_createdAt r = clock (S n)
      /\ hr_timeoutAt r = clock (S (S n)) + oneHour
      /\ hr_createdAt r + oneHour <= hr_timeoutAt r
      /\ (clock (S (S n)) = clock (S n) ->
          hr_timeoutAt r = hr_createdAt r + oneHour).
Proof.
  intros context w n id w1 pending w2 Hmono Hsoon.
  subst id w1 pending w2. rewrite escalateToSupervisor_creates in *.
  cbn [fst snd] in *. rewrite getPendingHelpRequests_swept.
  cbn [fst snd helpRequests clockReads] in *. fold n in Hsoon |- *.
  set (r := {| hr_id := _ |}).
  assert (Hfresh : expired (clock (S (S (S n)))) r = false).
  { destruct (expired _ r) eqn:Hexp; [|reflexivity].
    apply expired_pending in Hexp as [_ Hexp]. cbn in Hexp. lia. }
  assert (Hin : In r (sweep (clock (S (S (S n)))) (helpRequests w ++ [r]))).
  { rewrite sweep_app. apply in_or_app. right. cbn. rewrite Hfresh. now left. }
  exists r. split; [apply filter_In; now split|]. split; [exact Hin|].
  cbn. repeat split; [lia | intros ->; reflexivity].
Qed.

End PendingList.

Lemma escalation_then_pending_witness :
  exists r : HelpRequest,
    In r (fst (getPendingHelpRequests Example.stillClock
                 (snd (escalateToSupervisor Example.stillClock Example.suffix
                         Example.parkingContext Example.emptyWorld))))
    /\ hr_status r = PENDING
    /\ hr_timeoutAt r = hr_createdAt r + oneHour.
Proof.
  destruct (escalation_then_pending Example.stillClock Example.suffix
              Example.parkingContext Example.emptyWorld)
    as (r & Hin & _ & _ & Hstatus & _ & _ & _ & _ & _ & Hexact).
  - reflexivity.
  - reflexivity.
  - exists r. repeat split; [exact Hin | exact Hstatus | now apply Hexact].
Defined.

(** C6 as stated fails: when the clock moves from 1000 to 1001 between the
    reading for [createdAt] and the reading for [timeoutAt], the request
    that the pending list returns has [timeoutAt] one millisecond more than
    [createdAt] plus one hour. *)
Lemma timeoutAt_not_exactly_one_hour :
  let w1 := snd (escalateToSupervisor Example.tickingClock Example.suffix
                   Example.parkingContext Example.emptyWorld) in
  exists r : HelpRequest,
    fst (getPendingHelpRequests Example.tickingClock w1) = [r]
    /\ helpRequests w1 = [r]
    /\ hr_status r = PENDING
    /\ hr_createdAt r = 1000
    /\ hr_timeoutAt r = 3601001
    /\ hr_timeoutAt r <> hr_createdAt r + oneHour.
Proof. cbn zeta. eexists. repeat split. discriminate. Qed.

(** ** One tick of the poller *)

Lemma markResolved_map (id : string) (requests : list HelpRequest) :
  List.NoDup (List.map hr_id requests) ->
  markResolved id requests =
  List.map (fun r => if String.eqb (hr_id r) id then setStatus RESOLVED r else r)
           requests.
Proof.
  unfold markResolved. induction requests as [|a l IH]; [reflexivity|].
  cbn [List.map]. intros Hnodup. apply NoDup_cons_iff in Hnodup as [Ha Hl].
  cbn [findIndex]. destruct (String.eqb_spec (hr_id a) id) as [Heq|Hne].
  - cbn. f_equal. transitivity (List.map (fun x => x) l);
      [symmetry; apply map_id | apply map_ext_in].
    intros r Hr. destruct (String.eqb_spec (hr_id r) id) as [Hr'|]; [|reflexivity].
    exfalso. apply Ha. rewrite Heq, <- Hr'. now apply in_map.
  - specialize (IH Hl). destruct (findIndex l id) as [i|]; cbn.
    + destruct (l !! i); cbn; now rewrite <- IH.
    + now rewrite <- IH.
Qed.

Lemma markResolved_ids (id : string) (requests : list HelpRequest) :
  List.NoDup (List.map hr_id requests) ->
  List.map hr_id (markResolved id requests) = List.map hr_id requests.
Proof.
  intros H. rewrite (markResolved_map _ _ H), List.map_map.
  apply map_ext. intros r. now destruct (String.eqb _ _).
Qed.

Lemma fold_markResolved (pending requests : list HelpRequest) :
  List.NoDup (List.map hr_id requests) ->
  fold_left (fun l r => if answered r then markResolved (hr_id r) l else l)
            pending requests =
  List.map (fun r =>
              if existsb (String.eqb (hr_id r))
                         (List.map hr_id (List.filter answered pending))
              then setStatus RESOLVED r else r)
           requests.
Proof.
  revert requests. induction pending as [|p ps IH]; intros requests Hnodup.
  - cbn. symmetry. apply map_id.
  - cbn [fold_left List.filter]. destruct (answered p) eqn:Hp.
    + rewrite IH by now rewrite markResolved_ids.
      rewrite (markResolved_map _ _ Hnodup), List.map_map.
      apply map_ext. intros r. cbn [List.map existsb].
      destruct (String.eqb_spec (hr_id r) (hr_id p)) as [Heq|Hne]; cbn.
      * now destruct (existsb _ _).
      * reflexivity.
    + now apply IH.
Qed.

Lemma NoDup_map_inj {A B : Type} (f : A -> B) (l : list A) (a b : A) :
  List.NoDup (List.map f l) -> In a l -> In b l -> f a = f b -> a = b.
Proof.
  induction l as [|x l IH]; [intros _ []|].
  cbn [List.map]. intros Hnodup Ha Hb Hab.
  apply NoDup_cons_iff in Hnodup as [Hx Hl].
  destruct Ha as [<-|Ha], Hb as [<-|Hb]; [reflexivity | | | now apply IH].
  - exfalso. apply Hx. rewrite Hab. now apply in_map.
  - exfalso. apply Hx. rewrite <- Hab. now apply in_map.
Qed.

Lemma settle_by_id (requests : list HelpRequest) :
  List.NoDup (List.map hr_id requests) ->
  List.map (fun r =>
              if existsb (String.eqb (hr_id r))
                   (List.map hr_id (List.filter answered (List.filter isPending requests)))
              then setStatus RESOLVED r else r)
           requests
  = List.map settle requests.
Proof.
  intros Hnodup. apply map_ext_in. intros r Hr. unfold settle.
  destruct (isPending r && answered r) eqn:Hsettle.
  - apply andb_true_iff in Hsettle as [Hpend Hans].
    replace (existsb _ _) with true; [reflexivity|].
    symmetry. apply existsb_exists. exists (hr_id r).
    split; [|apply String.eqb_refl].
    apply in_map, filter_In. split; [|assumption]. apply filter_In. now split.
  - replace (existsb _ _) with false; [reflexivity|].
    symmetry. apply not_true_is_false. intros H.
    apply existsb_exists in H as (x & Hx & Heq).
    apply String.eqb_eq in Heq. subst x.
    apply in_map_iff in Hx as (r' & Hid & Hr').
    apply filter_In in Hr' as [Hr' Hans]. apply filter_In in Hr' as [Hr' Hpend].
    assert (r' = r) by (apply (NoDup_map_inj hr_id requests); assumption).
    subst r'. rewrite Hpend, Hans in Hsettle. discriminate.
Qed.

Section Poller.
Context {Handle : Type}.
Variable say : Handle -> string -> bool.
Variable clock : nat -> Z.
Implicit Types (w : @World Handle).

Lemma updateHelpRequest_markResolved (id : string) w :
  snd (updateHelpRequest id (statusOnly RESOLVED) w) =
  mkWorld (markResolved id (helpRequests w)) (knowledgeBase w) (activeSessions w)
          (notices w) (clockReads w) (randomDraws w).
Proof.
  unfold markResolved.
  destruct (findIndex (helpRequests w) id) as [i|] eqn:Hfind.
  - destruct (findIndex_Some _ _ _ Hfind) as (old & Hold & _).
    now rewrite (updateHelpRequest_found _ _ _ _ _ Hfind Hold), Hold.
  - rewrite (updateHelpRequest_missing _ _ _ Hfind). now destruct w.
Qed.

Lemma settleOne_run (p : HelpRequest) w :
  exists (delivered : bool) (sessions : gmap string ActiveSession) (reads : nat),
    settleOne say clock p w =
    (tt, if answered p
         then mkWorld (markResolved (hr_id p) (helpRequests w)) (knowledgeBase w)
                sessions
                (notices w ++
                   [mkCustomerNotice (hr_customerPhone p)
                      (answerMessage (default "" (hr_supervisorAnswer p))) delivered])
                reads (randomDraws w)
         else w).
Proof.
  unfold settleOne. destruct (answered p).
  - destruct (notifyCustomer_run say clock (hr_customerPhone p)
                (answerMessage (default "" (hr_supervisorAnswer p))) w)
      as (delivered & sessions & reads & Hnotify).
    exists delivered, sessions, reads.
    rewrite (bind_run _ _ _ _ _ Hnotify).
    unfold bind, ret. cbn [fst snd]. now rewrite updateHelpRequest_markResolved.
  - exists false, (activeSessions w), (clockReads w). reflexivity.
Qed.

Lemma forEach_settleOne (pending : list HelpRequest) w :
  let w' := snd (forEach pending (settleOne say clock) w) in
  helpRequests w' =
    fold_left (fun l r => if answered r then markResolved (hr_id r) l else l)
              pending (helpRequests w)
  /\ knowledgeBase w' = knowledgeBase w
  /\ List.map noticeTarget (notices w') =
     (List.map noticeTarget (notices w)
      ++ List.map announcement (List.filter answered pending))%list.
Proof.
  revert w. induction pending as [|p ps IH]; intros w.
  - cbn. now rewrite app_nil_r.
  - cbn [forEach fold_left List.filter].
    destruct (settleOne_run p w) as (delivered & sessions & reads & Hrun).
    rewrite (bind_run _ _ _ _ _ Hrun).
    destruct (answered p).
    + match goal with
      | |- context [forEach ps _ ?w1] =>
          destruct (IH w1) as (IHreqs & IHkb & IHnotices)
      end.
      cbn zeta. cbn [helpRequests knowledgeBase notices] in IHreqs, IHkb, IHnotices.
      rewrite IHreqs, IHkb, IHnotices. repeat split.
      rewrite map_app, <- app_assoc. reflexivity.
    + apply IH.
Qed.

Lemma checkForSupervisorResponses_loop w :
  checkForSupervisorResponses say clock w =
  forEach (fst (getPendingHelpRequests clock w)) (settleOne say clock)
          (snd (getPendingHelpRequests clock w)).
Proof. reflexivity. Qed.

(** C4, as the code has it.  A tick reads the pending list, which sweeps
    the timeouts, and looks only at the requests that are pending after
    the sweep.  For each of them that carries an answer and a resolution
    date it announces the answer to the customer, in order, and then,
    whatever the delivery gave, sets the status to [resolved]; when the
    ids are distinct the file ends up as the swept list with exactly
    those requests resolved.  Requests that are not pending are neither
    announced nor changed. *)
Theorem poller_tick_scans_pending :
  forall w,
    let swept := sweep (clock (clockReads w)) (helpRequests w) in
    let w' := snd (checkForSupervisorResponses say clock w) in
    List.map noticeTarget (notices w') =
      (List.map noticeTarget (notices w)
       ++ List.map announcement
            (List.filter answered (List.filter isPending swept)))%list
    /\ knowledgeBase w' = knowledgeBase w
    /\ (List.NoDup (List.map hr_id (helpRequests w)) ->
        helpRequests w' = List.map settle swept).
Proof.
  intros w swept w'. subst w'.
  rewrite checkForSupervisorResponses_loop, getPendingHelpRequests_swept.
  cbn [fst snd]. fold swept.
  destruct (forEach_settleOne (List.filter isPending swept)
              (mkWorld swept (knowledgeBase w) (activeSessions w) (notices w)
                       (S (clockReads w)) (randomDraws w)))
    as (Hreqs & Hkb & Hnotices).
  cbn [helpRequests knowledgeBase notices] in *.
  split; [exact Hnotices|]. split; [exact Hkb|].
  intros Hnodup. rewrite Hreqs.
  assert (Hswept : List.NoDup (List.map hr_id swept)).
  { replace (List.map hr_id swept) with (List.map hr_id (helpRequests w));
      [assumption|].
    subst swept. unfold sweep. rewrite List.map_map. apply map_ext.
    intros r. now destruct (expired _ r). }
  rewrite (fold_markResolved _ _ Hswept). now apply settle_by_id.
Qed.

End Poller.

(** A pending request that carries an answer, a customer in a call on which
    [say] fails: the answer is announced and the request is resolved all the
    same. *)
Lemma poller_tick_scans_pending_witness :
  let w' := snd (checkForSupervisorResponses Example.sayFails Example.stillClock
                   (Example.worldInCall [Example.answeredPending])) in
  helpRequests w' = [setStatus RESOLVED Example.answeredPending]
  /\ List.map noticeTarget (notices w')
     = [(Example.phone,
         "Hi! I got an answer to your question: Yes, free parking in the lot")].
Proof.
  destruct (poller_tick_scans_pending Example.sayFails Example.stillClock
              (Example.worldInCall [Example.answeredPending]))
    as (Hnotices & _ & Hreqs).
  split; [|exact Hnotices].
  apply Hreqs. simpl. apply List.NoDup_cons; [intros [] | apply List.NoDup_nil].
Defined.

(** C4 as stated fails: a request that carries an answer and a resolution
    date but whose status is [timeout], hence not pending and not marked
    resolved, is in the file; the tick announces nothing and leaves the
    file as it is, although the customer is in a live call. *)
Lemma poller_skips_non_pending :
  let w := Example.worldInCall [Example.answeredTimedOut] in
  let w' := snd (checkForSupervisorResponses Example.sayOk Example.stillClock w) in
  answered Example.answeredTimedOut = true
  /\ hr_resolvedAt Example.answeredTimedOut = Some 500
  /\ hr_status Example.answeredTimedOut = TIMEOUT
  /\ In Example.answeredTimedOut (helpRequests w)
  /\ notices w' = []
  /\ helpRequests w' = helpRequests w.
Proof. cbn zeta. repeat split. now left. Qed.

(** ** The scenarios of the specification, run on the model *)

Example synonym_phrasings_agree :
  Search.searchKnowledge Seed.initialKnowledge "hair color cost"
    = Returns (Some Seed.haircut)
  /\ Search.searchKnowledge Seed.initialKnowledge "hair coloring price"
     = Returns (Some Seed.haircut).
Proof. vm_compute. split; reflexivity. Qed.

Example literal_question_found :
  Search.searchKnowledge Seed.initialKnowledge "What are your business hours?"
    = Returns (Some Seed.hours)
  /\ Search.scoreEntry (normalize "What are your business hours?")
       ["business"; "hours"; "time"; "schedule"; "open"; "closed"] Seed.hours = 180.
Proof. vm_compute. split; reflexivity. Qed.

Example gibberish_not_found :
  Search.searchKnowledge Seed.initialKnowledge "completely unrelated gibberish xyz"
    = Returns None.
Proof. vm_compute. reflexivity. Qed.

Example split_keeps_empty_ends :
  splitWhitespace " a  b " = [""; "a"; "b"; ""]
  /\ splitWhitespace "" = [""]
  /\ trim "  Do you   have parking? " = "Do you   have parking?"
  /\ includes "haircut" "hair" = true
  /\ includes "hair" "haircut" = false.
Proof. vm_compute. repeat split. Qed.

(** Parking is unknown; the question is escalated, answered through the
    route, and found by the next search. *)
Example parking_end_to_end :
  let w0 := Example.worldWith [] in
  let ask w := fst (searchKnowledge "Do you have parking?" w) in
  let id := fst (escalateToSupervisor Example.stillClock Example.suffix
                   Example.parkingContext w0) in
  let w1 := snd (escalateToSupervisor Example.stillClock Example.suffix
                   Example.parkingContext w0) in
  let w2 := snd (respond Example.sayOk Example.stillClock Example.suffix id
                   (Some "Yes, free parking in the lot") w1) in
  ask w0 = Returns None
  /\ length (fst (getPendingHelpRequests Example.stillClock w1)) = 1%nat
  /\ length (fst (getPendingHelpRequests Example.stillClock w2)) = 0%nat
  /\ length (knowledgeBase w2) = S (length (knowledgeBase w1))
  /\ exists e, ask w2 = Returns (Some e)
               /\ ke_source e = learned
               /\ ke_answer e = "Yes, free parking in the lot".
Proof. vm_compute. repeat split. eexists. repeat split. Qed.

(** * Further properties of the code *)

(** ** Normalizing a query *)






















(** ** The words of a query *)







(** ** The expanded words are a set *)

Lemma setAdd_In (s : list string) (x y : string) :
  In y (Search.setAdd s x) <-> In y s \/ y = x.
Proof.
  unfold Search.setAdd. destruct (arrayIncludes s x) eqn:Hx.
  - apply arrayIncludes_In in Hx. split; [now left|]. now intros [H| ->].
  - rewrite in_app_iff. cbn. split.
    + intros [H|[->|[]]]; [now left | now right].
    + intros [H| ->]; [now left | right; now left].
Qed.

Lemma setAdd_NoDup (s : list string) (x : string) :
  List.NoDup s -> List.NoDup (Search.setAdd s x).
Proof.
  intros Hs. unfold Search.setAdd. destruct (arrayIncludes s x) eqn:Hx; [assumption|].
  apply List.NoDup_app; [assumption | repeat constructor; intros [] |].
  intros y Hy [<-|[]]. apply arrayIncludes_In in Hy. congruence.
Qed.

Lemma fold_setAdd_In (xs s : list string) (y : string) :
  In y (fold_left Search.setAdd xs s) <-> In y s \/ In y xs.
Proof.
  revert s. induction xs as [|x xs IH]; intros s; cbn [fold_left].
  - cbn. tauto.
  - rewrite IH, setAdd_In. cbn. split.
    + intros [[H| ->]|H]; auto.
    + intros [H|[<-|H]]; auto.
Qed.

Lemma fold_setAdd_NoDup (xs s : list string) :
  List.NoDup s -> List.NoDup (fold_left Search.setAdd xs s).
Proof.
  revert s. induction xs as [|x xs IH]; intros s Hs; [assumption|].
  cbn [fold_left]. now apply IH, setAdd_NoDup.
Qed.

Lemma synonyms_WordArray (w : string) (syns : list string) :
  Search.synonyms w = Search.WordArray syns <->
  Search.ownProperty Search.synonymTable w = Some syns.
Proof.
  unfold Search.synonyms. destruct (Search.ownProperty _ w) as [l|].
  - split; intros [= ->]; reflexivity.
  - destruct (Search.inheritedProperty w); split; discriminate.
Qed.

Lemma addSynonyms_returns (queryWords acc out : list string) :
  Search.addSynonyms acc queryWords = Returns out ->
  List.NoDup acc ->
  List.NoDup out
  /\ forall y, In y out <->
       In y acc
       \/ exists q syns, In q queryWords
                         /\ Search.ownProperty Search.synonymTable q = Some syns
                         /\ In y syns.
Proof.
  revert acc. induction queryWords as [|w ws IH]; intros acc Hrun Hacc.
  - injection Hrun as <-. split; [assumption|]. intros y. split; [now left|].
    intros [H|(q & syns & [] & _)]. assumption.
  - cbn [Search.addSynonyms] in Hrun. destruct (Search.synonyms w) as [|syns|] eqn:Hw.
    + destruct (IH acc Hrun Hacc) as [Hnodup Hin]. split; [assumption|].
      intros y. rewrite Hin. split.
      * intros [H|(q & l & Hq & Hl & Hy)]; [now left|].
        right. exists q, l. repeat split; [now right | assumption..].
      * intros [H|(q & l & [<-|Hq] & Hl & Hy)]; [now left | |].
        -- apply synonyms_WordArray in Hl. congruence.
        -- right. now exists q, l.
    + destruct (IH _ Hrun (fold_setAdd_NoDup syns acc Hacc)) as [Hnodup Hin].
      split; [assumption|]. apply synonyms_WordArray in Hw.
      intros y. rewrite Hin, fold_setAdd_In. split.
      * intros [[H|H]|(q & l & Hq & Hl & Hy)].
        -- now left.
        -- right. exists w, syns. repeat split; [now left | assumption..].
        -- right. exists q, l. repeat split; [now right | assumption..].
      * intros [H|(q & l & [<-|Hq] & Hl & Hy)].
        -- left. now left.
        -- left. right. congruence.
        -- right. now exists q, l.
    + discriminate.
Qed.

(** X3.  When the expansion returns, the expanded words hold no word twice, and
    they are the words of the query together with the synonyms that the
    table lists for those words. *)
Theorem expanded_words_are_a_set :
  forall (normalizedQuery : string) (expanded : list string),
    Search.expandedQueryWordsOf normalizedQuery = Returns expanded ->
    List.NoDup expanded
    /\ forall y, In y expanded <->
         In y (Search.queryWordsOf normalizedQuery)
         \/ exists q syns, In q (Search.queryWordsOf normalizedQuery)
                           /\ Search.ownProperty Search.synonymTable q = Some syns
                           /\ In y syns.
Proof.
  intros normalizedQuery expanded Hrun. unfold Search.expandedQueryWordsOf in Hrun.
  destruct (addSynonyms_returns _ _ _ Hrun) as [Hnodup Hin].
  - apply fold_setAdd_NoDup. constructor.
  - split; [assumption|]. intros y. rewrite Hin. unfold Search.newSet.
    rewrite fold_setAdd_In. cbn. tauto.
Qed.

Lemma expanded_words_are_a_set_witness :
  List.NoDup ["price"; "price?"; "cost"; "pricing"; "fee"; "charge"; "rate"].
Proof.
  apply (expanded_words_are_a_set "price price price?"). reflexivity.
Defined.

(** ** Scores and the growth of the knowledge base *)

Lemma substringScore_range (normalizedQuery : string) (e : KnowledgeEntry) :
  0 <= Search.substringScore normalizedQuery e <= 100.
Proof. unfold Search.substringScore. destruct (_ || _); lia. Qed.

Lemma categoryScore_range (expanded : list string) (e : KnowledgeEntry) :
  0 <= Search.categoryScore expanded e <= 50.
Proof. unfold Search.categoryScore. destruct (_ && _); lia. Qed.

Lemma keywordScore_nonneg (expanded : list string) (e : KnowledgeEntry) :
  0 <= Search.keywordScore expanded e.
Proof.
  unfold Search.keywordScore, Search.matchCount, Search.partialMatches. lia.
Qed.

Lemma learnedBonus_range (e : KnowledgeEntry) : 0 <= Search.learnedBonus e <= 10.
Proof. unfold Search.learnedBonus. destruct (ke_source e); lia. Qed.

Lemma scoreEntry_nonneg (normalizedQuery : string) (expanded : list string)
      (e : KnowledgeEntry) :
  0 <= Search.scoreEntry normalizedQuery expanded e.
Proof.
  unfold Search.scoreEntry.
  pose proof (substringScore_range normalizedQuery e).
  pose proof (categoryScore_range expanded e).
  pose proof (keywordScore_nonneg expanded e).
  pose proof (learnedBonus_range e). lia.
Qed.

Lemma scoreEntry_substring (normalizedQuery : string) (expanded : list string)
      (e : KnowledgeEntry) :
  includes (Search.normalizedQuestionOf e) normalizedQuery
  || includes normalizedQuery (Search.normalizedQuestionOf e) = true ->
  100 + Search.learnedBonus e <= Search.scoreEntry normalizedQuery expanded e.
Proof.
  intros H. unfold Search.scoreEntry, Search.substringScore. rewrite H.
  pose proof (categoryScore_range expanded e).
  pose proof (keywordScore_nonneg expanded e). lia.
Qed.

Lemma In_lookup {A : Type} (l : list A) (x : A) :
  In x l -> exists i : nat, l !! i = Some x.
Proof. intros H. now apply list_elem_of_lookup_1, list_elem_of_In. Qed.

Lemma bestOf_at_least {A : Type} (score : A -> Z) (l : list A) (x : A) :
  In x l -> 0 < score x ->
  exists best, bestOf score l = Some best /\ score x <= score best.
Proof.
  intros Hx Hpos. destruct (bestOf score l) as [best|] eqn:Hbest.
  - exists best. split; [reflexivity|].
    destruct (bestOf_Some score l best Hbest) as (i & _ & _ & Hmax).
    destruct (In_lookup l x Hx) as (j & Hj). now destruct (Hmax j x Hj).
  - pose proof (proj1 (bestOf_None score l) Hbest x Hx). lia.
Qed.

(** X4.  A question of the knowledge base is found again: when the normalized
    question of some entry contains the normalized query or is contained in
    it, and the expansion of the query returns, the search returns an
    entry, and that entry scores 100 or more. *)
Theorem searchKnowledge_finds_known_question :
  forall (knowledge : list KnowledgeEntry) (query : string)
         (expanded : list string) (e : KnowledgeEntry),
    In e knowledge ->
    Search.expandedQueryWordsOf (normalize query) = Returns expanded ->
    includes (Search.normalizedQuestionOf e) (normalize query)
    || includes (normalize query) (Search.normalizedQuestionOf e) = true ->
    exists best,
      Search.searchKnowledge knowledge query = Returns (Some best)
      /\ 100 <= Search.scoreEntry (normalize query) expanded best.
Proof.
  intros knowledge query expanded e He Hexp Hsub.
  rewrite (searchKnowledge_bestOf _ _ _ Hexp).
  pose proof (scoreEntry_substring _ expanded e Hsub) as Hscore.
  pose proof (learnedBonus_range e) as Hbonus.
  destruct (bestOf_at_least (Search.scoreEntry (normalize query) expanded)
              knowledge e He) as (best & -> & Hbest); [lia|].
  exists best. split; [reflexivity | lia].
Qed.

Lemma searchKnowledge_finds_known_question_witness :
  exists best,
    Search.searchKnowledge Seed.initialKnowledge "  where are YOU located?"
      = Returns (Some best)
    /\ 100 <= Search.scoreEntry (normalize "  where are YOU located?")
                ["located?"] best.
Proof.
  apply (searchKnowledge_finds_known_question Seed.initialKnowledge
           "  where are YOU located?" ["located?"] Seed.location).
  - right. now left.
  - reflexivity.
  - reflexivity.
Defined.

Section BestOfApp.
Context {A : Type} (score : A -> Z).

Lemma bestOf_positive (l : list A) (x : A) :
  bestOf score l = Some x -> 0 < score x.
Proof. intros H. now destruct (bestOf_Some score l x H) as (_ & _ & Hpos & _). Qed.

Lemma bestOf_app (l m : list A) :
  bestOf score (l ++ m) = firstUnlessBetter score (bestOf score l) (bestOf score m).
Proof.
  induction l as [|x l IH]; [reflexivity|].
  change ((x :: l) ++ m)%list with (x :: (l ++ m))%list.
  rewrite !bestOf_cons, IH. unfold firstUnlessBetter.
  pose proof (bestOf_positive m) as Hm.
  destruct (bestOf score l) as [a|], (bestOf score m) as [b|];
    try specialize (Hm b eq_refl);
    repeat match goal with
           | |- context [?u <? ?v] => destruct (Z.ltb_spec u v)
           | |- context [?u <=? ?v] => destruct (Z.leb_spec u v)
           end;
    first [reflexivity | lia].
Qed.

End BestOfApp.

(** X5.  Entries added at the end of the knowledge base take a query over only
    by a strictly higher score: the search in the longer base returns what
    the search in the old entries returns, unless the search in the new
    entries returns an entry that scores strictly more. *)
Theorem searchKnowledge_after_growth :
  forall (knowledge more : list KnowledgeEntry) (query : string)
         (expanded : list string),
    Search.expandedQueryWordsOf (normalize query) = Returns expanded ->
    exists old new,
      Search.searchKnowledge knowledge query = Returns old
      /\ Search.searchKnowledge more query = Returns new
      /\ Search.searchKnowledge (knowledge ++ more) query
         = Returns (firstUnlessBetter
                      (Search.scoreEntry (normalize query) expanded) old new).
Proof.
  intros knowledge more query expanded Hexp.
  rewrite !(searchKnowledge_bestOf _ _ _ Hexp), bestOf_app. eauto.
Qed.

Lemma searchKnowledge_after_growth_witness :
  Search.searchKnowledge (Seed.initialKnowledge ++ [Seed.haircut]) "haircut cost"
  = Returns (Some Seed.haircut).
Proof.
  destruct (searchKnowledge_after_growth Seed.initialKnowledge [Seed.haircut]
              "haircut cost"
              ["haircut"; "cost"; "price"; "pricing"; "fee"; "charge"; "rate"]
              eq_refl) as (old & new & Hold & Hnew & ->).
  injection Hold as <-. injection Hnew as <-. reflexivity.
Defined.

(** ** Reading the pending list again *)

Lemma expired_setStatus_TIMEOUT (nowMs : Z) (r : HelpRequest) :
  expired nowMs (setStatus TIMEOUT r) = false.
Proof. reflexivity. Qed.

Lemma sweep_again (t1 t2 : Z) (requests : list HelpRequest) :
  t2 <= t1 -> sweep t2 (sweep t1 requests) = sweep t1 requests.
Proof.
  intros Hle. unfold sweep. rewrite List.map_map. apply map_ext. intros r.
  destruct (expired t1 r) eqn:H1; [now rewrite expired_setStatus_TIMEOUT|].
  destruct (expired t2 r) eqn:H2; [|reflexivity].
  apply expired_pending in H2 as [Hp Hlt].
  assert (expired t1 r = true) by (apply expired_pending; split; [assumption | lia]).
  congruence.
Qed.

(** X6.  Sweeping at one time and then at another is sweeping once at the later
    of the two; in particular a second sweep at the same time, or at an
    earlier one, changes nothing. *)
Theorem sweep_sweep :
  forall (t1 t2 : Z) (requests : list HelpRequest),
    sweep t2 (sweep t1 requests) = sweep (Z.max t1 t2) requests.
Proof.
  intros t1 t2 requests. unfold sweep. rewrite List.map_map.
  apply map_ext. intros r.
  destruct (expired t1 r) eqn:H1.
  - rewrite expired_setStatus_TIMEOUT.
    apply expired_pending in H1 as [Hp Hlt].
    replace (expired (Z.max t1 t2) r) with true; [reflexivity|].
    symmetry. apply expired_pending. split; [assumption | lia].
  - destruct (expired t2 r) eqn:H2.
    + apply expired_pending in H2 as [Hp Hlt].
      replace (expired (Z.max t1 t2) r) with true; [reflexivity|].
      symmetry. apply expired_pending. split; [assumption | lia].
    + replace (expired (Z.max t1 t2) r) with false; [reflexivity|].
      symmetry. apply not_true_is_false. intros H.
      apply expired_pending in H as [Hp Hlt].
      destruct (Z.max_spec t1 t2) as [[_ Hmax]|[_ Hmax]]; rewrite Hmax in Hlt.
      * assert (expired t2 r = true) by now apply expired_pending. congruence.
      * assert (expired t1 r = true) by now apply expired_pending. congruence.
Qed.

Lemma sweep_ids (nowMs : Z) (requests : list HelpRequest) :
  List.map hr_id (sweep nowMs requests) = List.map hr_id requests.
Proof.
  unfold sweep. rewrite List.map_map. apply map_ext.
  intros r. now destruct (expired nowMs r).
Qed.

Lemma In_sweep (nowMs : Z) (requests : list HelpRequest) (r : HelpRequest) :
  In r (sweep nowMs requests) ->
  expired nowMs r = false
  /\ exists r0, In r0 requests
                /\ (r = r0 \/ (expired nowMs r0 = true /\ r = setStatus TIMEOUT r0)).
Proof.
  unfold sweep. intros H. apply in_map_iff in H as (r0 & Hr & Hr0).
  destruct (expired nowMs r0) eqn:Hexp; subst r.
  - split; [reflexivity|]. exists r0. split; [assumption|]. right. now split.
  - split; [assumption|]. exists r0. split; [assumption|]. now left.
Qed.

Section PendingReads.
Context {Handle : Type}.
Variable clock : nat -> Z.
Implicit Types (w : @World Handle).

(** X7.  The pending-list read returns, in the order of the file, exactly the
    requests that the file holds as pending once the read is over; each of
    them has its deadline at or after the time of the read, and it was
    pending, unchanged, in the file before.  The read keeps the number and
    the ids of the requests, and leaves the knowledge base alone. *)
Theorem pending_read_returns_live_requests :
  forall w,
    let nowMs := clock (clockReads w) in
    let pending := fst (getPendingHelpRequests clock w) in
    let w' := snd (getPendingHelpRequests clock w) in
    pending = List.filter isPending (helpRequests w')
    /\ (forall r, In r pending ->
          hr_status r = PENDING /\ nowMs <= hr_timeoutAt r
          /\ In r (helpRequests w))
    /\ (forall r, In r (helpRequests w) -> hr_status r = PENDING ->
          nowMs <= hr_timeoutAt r -> In r pending)
    /\ List.map hr_id (helpRequests w') = List.map hr_id (helpRequests w)
    /\ knowledgeBase w' = knowledgeBase w.
Proof.
  intros w nowMs pending w'. subst pending w'.
  rewrite getPendingHelpRequests_swept. cbn [fst snd helpRequests knowledgeBase].
  fold nowMs. split; [reflexivity|]. split; [|split; [|split]].
  - intros r Hr. apply filter_In in Hr as [Hr Hpend].
    apply In_sweep in Hr as (Hfresh & r0 & Hr0 & [->|[_ ->]]); [|discriminate].
    unfold isPending in Hpend. apply bool_decide_eq_true in Hpend.
    split; [assumption|]. split; [|assumption].
    destruct (Z.lt_ge_cases (hr_timeoutAt r0) nowMs) as [Hlt|Hge]; [|lia].
    assert (expired nowMs r0 = true) by now apply expired_pending. congruence.
  - intros r Hr Hpend Hlive. apply filter_In. split.
    + unfold sweep. apply in_map_iff. exists r. split; [|assumption].
      replace (expired nowMs r) with false; [reflexivity|].
      symmetry. apply not_true_is_false. intros H.
      apply expired_pending in H as [_ H]. lia.
    + unfold isPending. now apply bool_decide_eq_true.
  - apply sweep_ids.
  - reflexivity.
Qed.

(** X8.  A second pending-list read returns only requests that the first one
    returned, whatever the clock does; a request that the first read left
    timed out or resolved is left so by the second; and when the clock has
    not advanced the second read returns the same list and leaves the file
    as the first one left it. *)
Theorem pending_read_again :
  forall w,
    let pending1 := fst (getPendingHelpRequests clock w) in
    let w1 := snd (getPendingHelpRequests clock w) in
    let pending2 := fst (getPendingHelpRequests clock w1) in
    let w2 := snd (getPendingHelpRequests clock w1) in
    (forall r, In r pending2 -> In r pending1)
    /\ (forall (i : nat) (r : HelpRequest),
          helpRequests w1 !! i = Some r -> hr_status r <> PENDING ->
          helpRequests w2 !! i = Some r)
    /\ (clock (clockReads w1) <= clock (clockReads w) ->
        pending2 = pending1 /\ helpRequests w2 = helpRequests w1).
Proof.
  intros w pending1 w1 pending2 w2. subst pending1 w1 pending2 w2.
  rewrite (getPendingHelpRequests_swept clock w). cbn [fst snd].
  rewrite getPendingHelpRequests_swept. cbn [fst snd helpRequests clockReads].
  split; [|split].
  - intros r Hr. apply filter_In in Hr as [Hr Hpend]. apply filter_In.
    split; [|assumption].
    apply In_sweep in Hr as (_ & r0 & Hr0 & [->|[_ ->]]); [assumption|discriminate].
  - intros i r Hr Hstatus. rewrite sweep_lookup, Hr.
    replace (expired _ r) with false; [reflexivity|].
    symmetry. apply not_true_is_false. intros H.
    now apply expired_pending in H as [H _].
  - intros Hclock. now rewrite sweep_again.
Qed.

End PendingReads.

Lemma pending_read_returns_live_requests_witness :
  In Example.parkingPending
     (fst (getPendingHelpRequests Example.stillClock
             (Example.worldWith [Example.parkingPending; Example.answeredTimedOut]))).
Proof.
  destruct (pending_read_returns_live_requests Example.stillClock
              (Example.worldWith [Example.parkingPending; Example.answeredTimedOut]))
    as (_ & _ & Hlive & _).
  apply Hlive; [now left | reflexivity | vm_compute; discriminate].
Defined.

Lemma pending_read_again_witness :
  let w1 := snd (getPendingHelpRequests Example.stillClock
                   (Example.worldWith [Example.parkingPending])) in
  fst (getPendingHelpRequests Example.stillClock w1)
  = fst (getPendingHelpRequests Example.stillClock
           (Example.worldWith [Example.parkingPending])).
Proof.
  destruct (pending_read_again Example.stillClock
              (Example.worldWith [Example.parkingPending])) as (_ & _ & Hsame).
  apply Hsame. vm_compute. discriminate.
Defined.

(** ** Creating, updating and reading back one request *)

Lemma find_findIndex (requests : list HelpRequest) (id : string) :
  List.find (fun r => String.eqb (hr_id r) id) requests =
  match findIndex requests id with
  | Some i => requests !! i
  | None => None
  end.
Proof.
  induction requests as [|a l IH]; [reflexivity|].
  cbn [List.find findIndex]. destruct (String.eqb (hr_id a) id); [reflexivity|].
  rewrite IH. now destruct (findIndex l id).
Qed.

Lemma find_app_fresh (requests : list HelpRequest) (r : HelpRequest) (id : string) :
  List.find (fun x => String.eqb (hr_id x) id) (requests ++ [r]) =
  match List.find (fun x => String.eqb (hr_id x) id) requests with
  | Some x => Some x
  | None => if String.eqb (hr_id r) id then Some r else None
  end.
Proof.
  induction requests as [|a l IH]; [reflexivity|].
  cbn [List.find app]. now destruct (String.eqb (hr_id a) id).
Qed.

Lemma findIndex_insert_same_id (requests : list HelpRequest) (id : string)
      (i : nat) (old new : HelpRequest) :
  findIndex requests id = Some i -> requests !! i = Some old ->
  hr_id new = hr_id old ->
  findIndex (<[i := new]> requests) id = Some i.
Proof.
  revert i. induction requests as [|a l IH]; intros i; [discriminate|].
  cbn [findIndex]. destruct (String.eqb (hr_id a) id) eqn:Ha.
  - intros [= <-] [= ->] Hid. cbn. now rewrite Hid, Ha.
  - destruct (findIndex l id) as [k|] eqn:Hk; [|discriminate].
    intros [= <-] Hold Hid.
    change (<[S k := new]> (a :: l)) with (a :: <[k := new]> l).
    cbn [findIndex]. rewrite Ha.
    now rewrite (IH k eq_refl Hold Hid).
Qed.

Section ReadBack.
Context {Handle : Type}.
Variable clock : nat -> Z.
Variable random : nat -> string.
Implicit Types (w : @World Handle).

Lemma getHelpRequest_run (id : string) w :
  getHelpRequest id w =
  (List.find (fun r => String.eqb (hr_id r) id) (helpRequests w), w).
Proof. reflexivity. Qed.

Lemma createHelpRequest_run (request : NewHelpRequest) w :
  let n := clockReads w in
  let r :=
    {| hr_id := "req_" +:+ pretty (clock n) +:+ "_" +:+ random (randomDraws w);
       hr_customerPhone := nr_customerPhone request;
       hr_customerName := nr_customerName request;
       hr_question := nr_question request;
       hr_context := nr_context request;
       hr_status := nr_status request;
       hr_createdAt := clock (S n);
       hr_resolvedAt := nr_resolvedAt request;
       hr_supervisorAnswer := nr_supervisorAnswer request;
       hr_timeoutAt := clock (S (S n)) + oneHour |} in
  createHelpRequest clock random request w =
  (r, mkWorld (helpRequests w ++ [r]) (knowledgeBase w) (activeSessions w)
              (notices w) (S (S (S n))) (S (randomDraws w))).
Proof. reflexivity. Qed.

(** X9.  [createHelpRequest] puts the new request at the end of the file and
    leaves the others in place.  Reading back by id gives the new request
    provided no older request bears the same id (the id is made of the time
    and a random suffix, and nothing checks that it is new); reading back any
    other id gives what it gave before. *)
Theorem create_then_get :
  forall (request : NewHelpRequest) w,
    let new := fst (createHelpRequest clock random request w) in
    let w' := snd (createHelpRequest clock random request w) in
    helpRequests w' = (helpRequests w ++ [new])%list
    /\ ((forall r, In r (helpRequests w) -> hr_id r <> hr_id new) ->
        fst (getHelpRequest (hr_id new) w') = Some new)
    /\ (forall id, id <> hr_id new ->
          fst (getHelpRequest id w') = fst (getHelpRequest id w))
    /\ (forall (id : string) (r : HelpRequest),
          fst (getHelpRequest id w) = Some r ->
          fst (getHelpRequest id w') = Some r).
Proof.
  intros request w new w'. subst new w'.
  rewrite createHelpRequest_run. cbn [fst snd].
  set (r := {| hr_id := _ |}). rewrite !getHelpRequest_run.
  cbn [fst helpRequests]. split; [reflexivity|]. split; [|split].
  - intros Hfresh. rewrite find_app_fresh, String.eqb_refl.
    destruct (List.find _ (helpRequests w)) as [x|] eqn:Hx; [|reflexivity].
    apply find_some in Hx as [Hin Hid]. apply String.eqb_eq in Hid.
    now destruct (Hfresh x Hin).
  - intros id Hid. rewrite !getHelpRequest_run. cbn [fst helpRequests].
    rewrite find_app_fresh.
    destruct (List.find _ (helpRequests w)); [reflexivity|].
    destruct (String.eqb_spec (hr_id r) id); [congruence | reflexivity].
  - intros id x. rewrite !getHelpRequest_run. cbn [fst helpRequests].
    rewrite find_app_fresh. now intros ->.
Qed.

(** X10.  An update that does not rename the request is read back by
    [getHelpRequest]: the read returns what [updateHelpRequest] returned,
    the updated request, or nothing when no request bears the id. *)
Theorem update_then_get :
  forall (id : string) (updates : HelpRequestUpdates) w,
    u_id updates = None ->
    fst (getHelpRequest id (snd (updateHelpRequest id updates w)))
    = fst (updateHelpRequest id updates w).
Proof.
  intros id updates w Hkeep. rewrite getHelpRequest_run. cbn [fst].
  destruct (findIndex (helpRequests w) id) as [i|] eqn:Hfind.
  - destruct (findIndex_Some _ _ _ Hfind) as (old & Hold & Hid & _).
    rewrite (updateHelpRequest_found _ _ _ _ _ Hfind Hold).
    cbn [fst snd helpRequests]. rewrite find_findIndex.
    rewrite (findIndex_insert_same_id _ _ _ old _ Hfind Hold).
    + apply list_lookup_insert_eq. now apply lookup_lt_Some in Hold.
    + unfold spread. cbn. now rewrite Hkeep.
  - rewrite (updateHelpRequest_missing _ _ _ Hfind). cbn [fst snd].
    now rewrite find_findIndex, Hfind.
Qed.

End ReadBack.

Lemma create_then_get_witness :
  let request := mkNewHelpRequest Example.phone None "Do you have parking?" None
                   PENDING None None in
  let made := createHelpRequest Example.stillClock Example.suffix request
                (Example.worldWith [Example.parkingPending]) in
  fst (getHelpRequest (hr_id (fst made)) (snd made)) = Some (fst made).
Proof.
  cbn zeta.
  destruct (create_then_get Example.stillClock Example.suffix
              (mkNewHelpRequest Example.phone None "Do you have parking?" None
                 PENDING None None)
              (Example.worldWith [Example.parkingPending]))
    as (_ & Hget & _).
  apply Hget. intros r [<-|[]]. vm_compute. discriminate.
Defined.

Lemma update_then_get_witness :
  fst (getHelpRequest "req_1_a"
         (snd (updateHelpRequest "req_1_a" (statusOnly TIMEOUT)
                 (Example.worldWith [Example.parkingPending]))))
  = Some Example.parkingTimedOut.
Proof.
  rewrite (update_then_get "req_1_a" (statusOnly TIMEOUT)
             (Example.worldWith [Example.parkingPending]) eq_refl).
  reflexivity.
Defined.

(** ** What no operation undoes *)

Lemma sameRequest_refl (r : HelpRequest) : sameRequest r r.
Proof. repeat split. Qed.

Lemma sameRequest_trans (r1 r2 r3 : HelpRequest) :
  sameRequest r1 r2 -> sameRequest r2 r3 -> sameRequest r1 r3.
Proof. unfold sameRequest. intros H12 H23. intuition congruence. Qed.

Lemma statusAdvances_trans (s1 s2 s3 : HelpRequestStatus) :
  statusAdvances s1 s2 -> statusAdvances s2 s3 -> statusAdvances s1 s3.
Proof.
  unfold statusAdvances.
  intros [->|[[-> ->]| ->]] [->|[[H ->]| ->]]; try discriminate; auto.
Qed.

Lemma requestsAdvance_refl (l : list HelpRequest) : requestsAdvance l l.
Proof.
  intros i r Hr. exists r. split; [assumption|].
  split; [apply sameRequest_refl | now left].
Qed.

Lemma requestsAdvance_trans (l1 l2 l3 : list HelpRequest) :
  requestsAdvance l1 l2 -> requestsAdvance l2 l3 -> requestsAdvance l1 l3.
Proof.
  intros H12 H23 i r Hr.
  destruct (H12 i r Hr) as (r2 & Hr2 & Hsame2 & Hadv2).
  destruct (H23 i r2 Hr2) as (r3 & Hr3 & Hsame3 & Hadv3).
  exists r3. split; [assumption|]. split.
  - now apply (sameRequest_trans r r2 r3).
  - now apply (statusAdvances_trans _ (hr_status r2)).
Qed.

Lemma requestsAdvance_sweep (nowMs : Z) (l : list HelpRequest) :
  requestsAdvance l (sweep nowMs l).
Proof.
  intros i r Hr. rewrite sweep_lookup, Hr. eexists. split; [reflexivity|].
  destruct (expired nowMs r) eqn:Hexp.
  - apply expired_pending in Hexp as [Hp _].
    split; [repeat split | right; left; now split].
  - split; [apply sameRequest_refl | now left].
Qed.

Lemma requestsAdvance_app (l more : list HelpRequest) :
  requestsAdvance l (l ++ more).
Proof.
  intros i r Hr. exists r. split; [now apply lookup_app_l_Some|].
  split; [apply sameRequest_refl | now left].
Qed.

Lemma requestsAdvance_insert (l : list HelpRequest) (i : nat) (old new : HelpRequest) :
  l !! i = Some old -> sameRequest old new ->
  statusAdvances (hr_status old) (hr_status new) ->
  requestsAdvance l (<[i := new]> l).
Proof.
  intros Hold Hsame Hadv j r Hr. destruct (decide (j = i)) as [->|Hne].
  - exists new. rewrite list_lookup_insert_eq by now apply lookup_lt_Some in Hold.
    assert (r = old) by congruence. subst r.
    split; [reflexivity|]. now split.
  - exists r. rewrite list_lookup_insert_ne by congruence.
    split; [assumption|]. split; [apply sameRequest_refl | now left].
Qed.

Lemma requestsAdvance_markResolved (id : string) (l : list HelpRequest) :
  requestsAdvance l (markResolved id l).
Proof.
  unfold markResolved. destruct (findIndex l id) as [i|]; [|apply requestsAdvance_refl].
  destruct (l !! i) as [old|] eqn:Hold; [|apply requestsAdvance_refl].
  apply (requestsAdvance_insert l i old); [assumption | repeat split |].
  right. now right.
Qed.

Lemma requestsAdvance_fold_markResolved (pending l : list HelpRequest) :
  requestsAdvance l
    (fold_left (fun l r => if answered r then markResolved (hr_id r) l else l)
               pending l).
Proof.
  revert l. induction pending as [|p ps IH]; intros l; [apply requestsAdvance_refl|].
  cbn [fold_left]. destruct (answered p); [|apply IH].
  eapply requestsAdvance_trans; [apply requestsAdvance_markResolved | apply IH].
Qed.

Lemma knowledgeKept_refl (k : list KnowledgeEntry) : knowledgeKept k k.
Proof. exists []. now rewrite app_nil_r. Qed.

Lemma knowledgeKept_trans (k1 k2 k3 : list KnowledgeEntry) :
  knowledgeKept k1 k2 -> knowledgeKept k2 k3 -> knowledgeKept k1 k3.
Proof.
  intros (m1 & ->) (m2 & ->). exists (m1 ++ m2)%list. now rewrite app_assoc.
Qed.

Lemma In_insert {A : Type} (l : list A) (i : nat) (x y : A) :
  In y (<[i := x]> l) -> y = x \/ In y l.
Proof.
  revert i. induction l as [|a l IH]; intros [|i]; cbn; try tauto.
  - intros [<-|H]; auto.
  - intros [<-|H]; auto. destruct (IH i H); auto.
Qed.

Lemma settled_sweep (nowMs : Z) (l : list HelpRequest) :
  settled l -> settled (sweep nowMs l).
Proof.
  intros Hl r Hr Hpend.
  apply In_sweep in Hr as (_ & r0 & Hr0 & [->|[_ ->]]); [|discriminate].
  now apply Hl.
Qed.

Lemma settled_insert (l : list HelpRequest) (i : nat) (new : HelpRequest) :
  settled l -> isPending new = false -> settled (<[i := new]> l).
Proof.
  intros Hl Hnew r Hr Hpend. apply In_insert in Hr as [->|Hr]; [congruence|].
  now apply Hl.
Qed.

Lemma settled_app (l : list HelpRequest) (new : HelpRequest) :
  settled l -> answered new = false -> settled (l ++ [new]).
Proof.
  intros Hl Hnew r Hr Hpend. apply in_app_or in Hr as [Hr|[<-|[]]]; [|assumption].
  now apply Hl.
Qed.

Lemma settled_markResolved (id : string) (l : list HelpRequest) :
  settled l -> settled (markResolved id l).
Proof.
  intros Hl. unfold markResolved. destruct (findIndex l id) as [i|]; [|assumption].
  destruct (l !! i) as [old|]; [|assumption]. now apply settled_insert.
Qed.

Lemma settled_fold_markResolved (pending l : list HelpRequest) :
  settled l ->
  settled (fold_left (fun l r => if answered r then markResolved (hr_id r) l else l)
                     pending l).
Proof.
  revert l. induction pending as [|p ps IH]; intros l Hl; [assumption|].
  cbn [fold_left]. destruct (answered p); [|now apply IH].
  now apply IH, settled_markResolved.
Qed.

Lemma settled_no_work (l : list HelpRequest) :
  settled l -> forall r, In r (List.filter isPending l) -> answered r = false.
Proof. intros Hl r Hr. apply filter_In in Hr as [Hr Hpend]. now apply Hl. Qed.

Section Effects.
Context {Handle : Type}.
Variable say : Handle -> string -> bool.
Variable clock : nat -> Z.
Variable random : nat -> string.
Implicit Types (w : @World Handle).

Lemma searchKnowledge_run (query : string) w :
  searchKnowledge query w = (Search.searchKnowledge (knowledgeBase w) query, w).
Proof. reflexivity. Qed.

Lemma searchKnowledgeTool_run (customerPhone query : string) w :
  searchKnowledgeTool clock random customerPhone query w =
  match Search.searchKnowledge (knowledgeBase w) query with
  | Throws e => (Throws e, w)
  | Returns (Some entry) => (Returns (ke_answer entry), w)
  | Returns None =>
      (Returns (escalatedReply
                  (fst (escalateToSupervisor clock random
                          (mkEscalationContext customerPhone None query None) w))),
       snd (escalateToSupervisor clock random
              (mkEscalationContext customerPhone None query None) w))
  end.
Proof.
  unfold searchKnowledgeTool.
  rewrite (bind_run _ _ _ _ _ (searchKnowledge_run query w)).
  now destruct (Search.searchKnowledge (knowledgeBase w) query) as [[entry|]|e].
Qed.

Lemma requestHelpTool_run (customerPhone question : string) w :
  requestHelpTool clock random customerPhone question w =
  (helpRequestedReply
     (fst (escalateToSupervisor clock random
             (mkEscalationContext customerPhone None question None) w)),
   snd (escalateToSupervisor clock random
          (mkEscalationContext customerPhone None question None) w)).
Proof. reflexivity. Qed.

Lemma checkRequestResolution_run (requestId : string) w :
  let swept := sweep (clock (clockReads w)) (helpRequests w) in
  let w1 := mkWorld swept (knowledgeBase w) (activeSessions w) (notices w)
                    (S (clockReads w)) (randomDraws w) in
  match List.find (fun r => String.eqb (hr_id r) requestId)
                  (List.filter isPending swept) with
  | Some request =>
      if answered request then
        exists (delivered : bool) (sessions : gmap string ActiveSession) (reads : nat),
          checkRequestResolution say clock requestId w =
          (true, mkWorld swept (knowledgeBase w) sessions
                         (notices w ++
                            [mkCustomerNotice (hr_customerPhone request)
                               (answerMessage (default "" (hr_supervisorAnswer request)))
                               delivered])
                         reads (randomDraws w))
      else checkRequestResolution say clock requestId w = (false, w1)
  | None => checkRequestResolution say clock requestId w = (false, w1)
  end.
Proof.
  intros swept w1. unfold checkRequestResolution.
  rewrite (bind_run _ _ _ _ _ (getPendingHelpRequests_swept clock w)).
  fold swept. fold w1.
  destruct (List.find _ _) as [request|]; [|reflexivity].
  destruct (answered request); [|reflexivity].
  destruct (notifyCustomer_run say clock (hr_customerPhone request)
              (answerMessage (default "" (hr_supervisorAnswer request))) w1)
    as (delivered & sessions & reads & Hnotify).
  exists delivered, sessions, reads.
  now rewrite (bind_run _ _ _ _ _ Hnotify).
Qed.

Lemma forEach_addKnowledge (entries : list NewKnowledge) w :
  let w' := snd (forEach entries
                   (fun k => bind (addKnowledge clock random k) (fun _ => ret tt)) w) in
  helpRequests w' = helpRequests w
  /\ activeSessions w' = activeSessions w
  /\ notices w' = notices w
  /\ exists added, knowledgeBase w' = (knowledgeBase w ++ added)%list
                   /\ List.map seedOf added = entries.
Proof.
  revert w. induction entries as [|k ks IH]; intros w.
  - cbn. repeat split. exists []. now rewrite app_nil_r.
  - cbn [forEach]. unfold bind at 1. cbn [fst snd].
    unfold bind at 2. cbn [snd ret]. rewrite addKnowledge_run. cbn [snd].
    cbn zeta.
    match goal with
    | |- context [forEach ks _ ?w1] =>
        destruct (IH w1) as (Hreqs & Hsessions & Hnotices & added & Hkb & Hseeds)
    end.
    cbn [helpRequests knowledgeBase activeSessions notices] in Hreqs, Hsessions,
      Hnotices, Hkb.
    split; [exact Hreqs|]. split; [exact Hsessions|]. split; [exact Hnotices|].
    eexists (_ :: added).
    split; [etransitivity; [exact Hkb | now rewrite <- app_assoc]|].
    cbn [List.map]. rewrite Hseeds. now destruct k.
Qed.

Lemma initDatabase_run w :
  helpRequests (snd (initDatabase clock random w)) = helpRequests w
  /\ match knowledgeBase w with
     | [] => exists added,
               knowledgeBase (snd (initDatabase clock random w)) = added
               /\ List.map seedOf added = initialKnowledge
     | _ :: _ => initDatabase clock random w = (tt, w)
     end.
Proof.
  unfold initDatabase.
  rewrite (bind_run getAllKnowledge _ w (knowledgeBase w) w eq_refl).
  destruct (knowledgeBase w) as [|e kb] eqn:Hkb; cbn [length Nat.eqb].
  - unfold seedKnowledgeBase.
    destruct (forEach_addKnowledge initialKnowledge w)
      as (Hreqs & _ & _ & added & Hadded & Hseeds).
    split; [exact Hreqs|]. exists added. rewrite Hadded, Hkb. now split.
  - now split.
Qed.

(** What one call does to the two files: the requests advance, the
    knowledge is kept, and a settled list of requests stays settled. *)
Lemma Step_effect w w' :
  Step say clock random w w' ->
  requestsAdvance (helpRequests w) (helpRequests w')
  /\ knowledgeKept (knowledgeBase w) (knowledgeBase w')
  /\ (settled (helpRequests w) -> settled (helpRequests w')).
Proof.
  assert (Hsame : forall v v' : @World Handle,
             helpRequests v' = helpRequests v -> knowledgeKept (knowledgeBase v) (knowledgeBase v') ->
             requestsAdvance (helpRequests v) (helpRequests v')
             /\ knowledgeKept (knowledgeBase v) (knowledgeBase v')
             /\ (settled (helpRequests v) -> settled (helpRequests v'))).
  { intros v v' Hreqs Hkb. rewrite Hreqs.
    split; [apply requestsAdvance_refl|]. now split. }
  assert (Hescalate : forall (context : EscalationContext) (v : @World Handle),
             let v' := snd (escalateToSupervisor clock random context v) in
             requestsAdvance (helpRequests v) (helpRequests v')
             /\ knowledgeKept (knowledgeBase v) (knowledgeBase v')
             /\ (settled (helpRequests v) -> settled (helpRequests v'))).
  { intros context v. cbn zeta. rewrite escalateToSupervisor_creates.
    cbn [snd helpRequests knowledgeBase].
    split; [apply requestsAdvance_app|]. split; [apply knowledgeKept_refl|].
    intros Hv. now apply settled_app. }
  intros [phone query v | phone question v | id answer v | v | v | requestId v
         | phone session room v | phone v | v].
  - rewrite searchKnowledgeTool_run.
    destruct (Search.searchKnowledge (knowledgeBase v) query) as [[entry|]|e];
      cbn [snd]; [apply Hsame; [reflexivity | apply knowledgeKept_refl]
                | apply Hescalate
                | apply Hsame; [reflexivity | apply knowledgeKept_refl]].
  - rewrite requestHelpTool_run. cbn [snd]. apply Hescalate.
  - destruct (truthyOpt answer) eqn:Hanswer.
    + destruct (truthyOpt_Some _ Hanswer) as (a & -> & Ha).
      destruct (findIndex (helpRequests v) id) as [i|] eqn:Hfind.
      * destruct (findIndex_Some _ _ _ Hfind) as (old & Hold & _).
        destruct (respond_found say clock random id a v i old Ha Hfind Hold)
          as (_ & Hreqs & (e & Hkb & _) & _).
        rewrite Hreqs, Hkb. split; [|split].
        -- apply (requestsAdvance_insert _ i old); [assumption | repeat split |].
           right. now right.
        -- now exists [e].
        -- intros Hv. now apply settled_insert.
      * rewrite (respond_unknown _ _ _ _ _ _ Hanswer Hfind). cbn [snd].
        apply Hsame; [reflexivity | apply knowledgeKept_refl].
    + rewrite (respond_no_answer _ _ _ _ _ _ Hanswer). cbn [snd].
      apply Hsame; [reflexivity | apply knowledgeKept_refl].
  - rewrite getPendingHelpRequests_swept. cbn [snd helpRequests knowledgeBase].
    split; [apply requestsAdvance_sweep|]. split; [apply knowledgeKept_refl|].
    apply settled_sweep.
  - rewrite checkForSupervisorResponses_loop, getPendingHelpRequests_swept.
    cbn [fst snd].
    match goal with
    | |- context [forEach ?pending _ ?v1] =>
        destruct (forEach_settleOne say clock pending v1) as (Hreqs & Hkb & _)
    end.
    cbn [helpRequests knowledgeBase] in Hreqs, Hkb. rewrite Hreqs, Hkb.
    split; [|split; [apply knowledgeKept_refl|]].
    + eapply requestsAdvance_trans;
        [apply requestsAdvance_sweep | apply requestsAdvance_fold_markResolved].
    + intros Hv. now apply settled_fold_markResolved, settled_sweep.
  - pose proof (checkRequestResolution_run requestId v) as Hrun. cbn zeta in Hrun.
    destruct (List.find _ _) as [request|].
    + destruct (answered request).
      * destruct Hrun as (delivered & sessions & reads & ->).
        cbn [snd helpRequests knowledgeBase].
        split; [apply requestsAdvance_sweep|]. split; [apply knowledgeKept_refl|].
        apply settled_sweep.
      * rewrite Hrun. cbn [snd helpRequests knowledgeBase].
        split; [apply requestsAdvance_sweep|]. split; [apply knowledgeKept_refl|].
        apply settled_sweep.
    + rewrite Hrun. cbn [snd helpRequests knowledgeBase].
      split; [apply requestsAdvance_sweep|]. split; [apply knowledgeKept_refl|].
      apply settled_sweep.
  - apply Hsame; [reflexivity | apply knowledgeKept_refl].
  - apply Hsame; [reflexivity | apply knowledgeKept_refl].
  - destruct (initDatabase_run v) as [Hreqs Hkb].
    apply Hsame; [assumption|].
    destruct (knowledgeBase v) as [|e kb] eqn:Hv.
    + destruct Hkb as (added & -> & _). now exists added.
    + rewrite Hkb. cbn [snd]. rewrite Hv. apply knowledgeKept_refl.
Qed.

Lemma Steps_effect w w' :
  Steps say clock random w w' ->
  requestsAdvance (helpRequests w) (helpRequests w')
  /\ knowledgeKept (knowledgeBase w) (knowledgeBase w')
  /\ (settled (helpRequests w) -> settled (helpRequests w')).
Proof.
  induction 1 as [v|v1 v2 v3 _ (IHreqs & IHkb & IHsettled) Hstep].
  - split; [apply requestsAdvance_refl|]. split; [apply knowledgeKept_refl | trivial].
  - destruct (Step_effect _ _ Hstep) as (Hreqs & Hkb & Hsettled).
    split; [now apply (requestsAdvance_trans _ (helpRequests v2))|].
    split; [now apply (knowledgeKept_trans _ (knowledgeBase v2)) | auto].
Qed.

End Effects.

Lemma requestsAdvance_length (l l' : list HelpRequest) :
  requestsAdvance l l' -> (length l <= length l')%nat.
Proof.
  intros H. destruct (Nat.le_gt_cases (length l) (length l')) as [Hle|Hgt];
    [assumption|].
  destruct (lookup_lt_is_Some_2 l (length l') Hgt) as (r & Hr).
  destruct (H _ _ Hr) as (r' & Hr' & _).
  apply lookup_lt_Some in Hr'. lia.
Qed.

Lemma settled_map_settle (l : list HelpRequest) : settled (List.map settle l).
Proof.
  intros r' Hr' Hpend. apply in_map_iff in Hr' as (r & <- & _).
  unfold settle in *. destruct (isPending r && answered r) eqn:Hwork.
  - discriminate.
  - rewrite Hpend in Hwork. exact Hwork.
Qed.

Section Invariants.
Context {Handle : Type}.
Variable say : Handle -> string -> bool.
Variable clock : nat -> Z.
Variable random : nat -> string.
Implicit Types (w : @World Handle).

Lemma forEach_idle (pending : list HelpRequest) w :
  (forall r, In r pending -> answered r = false) ->
  forEach pending (settleOne say clock) w = (tt, w).
Proof.
  induction pending as [|p ps IH]; intros Hidle; [reflexivity|].
  cbn [forEach].
  assert (Hp : settleOne say clock p w = (tt, w)).
  { unfold settleOne. now rewrite (Hidle p (or_introl eq_refl)). }
  rewrite (bind_run _ _ _ _ _ Hp). apply IH.
  intros r Hr. apply Hidle. now right.
Qed.

(** With no pending request that carries an answer, a tick is a pending-list
    read and nothing more. *)
Lemma tick_idle w :
  settled (helpRequests w) ->
  checkForSupervisorResponses say clock w =
  (tt, snd (getPendingHelpRequests clock w)).
Proof.
  intros Hw. rewrite checkForSupervisorResponses_loop.
  apply forEach_idle. rewrite getPendingHelpRequests_swept. cbn [fst].
  apply settled_no_work. now apply settled_sweep.
Qed.

Lemma tick_settles w :
  List.NoDup (List.map hr_id (helpRequests w)) ->
  helpRequests (snd (checkForSupervisorResponses say clock w))
  = List.map settle (sweep (clock (clockReads w)) (helpRequests w)).
Proof.
  intros Hnodup.
  rewrite checkForSupervisorResponses_loop, getPendingHelpRequests_swept.
  cbn [fst snd].
  match goal with
  | |- context [forEach ?pending _ ?v1] =>
      destruct (forEach_settleOne say clock pending v1) as (Hreqs & _)
  end.
  cbn [helpRequests] in Hreqs. rewrite Hreqs.
  rewrite fold_markResolved by now rewrite sweep_ids.
  apply settle_by_id. now rewrite sweep_ids.
Qed.

(** X11.  No call of the system removes, moves or rewrites what was recorded:
    after any run of calls, every help request is at its place with its id,
    customer, question, context and dates, and every knowledge entry is at
    its place, unchanged. *)
Theorem steps_keep_records :
  forall w w',
    Steps say clock random w w' ->
    (forall (i : nat) (r : HelpRequest),
       helpRequests w !! i = Some r ->
       exists r', helpRequests w' !! i = Some r' /\ sameRequest r r')
    /\ (forall (i : nat) (e : KnowledgeEntry),
          knowledgeBase w !! i = Some e -> knowledgeBase w' !! i = Some e)
    /\ (length (helpRequests w) <= length (helpRequests w'))%nat
    /\ (length (knowledgeBase w) <= length (knowledgeBase w'))%nat.
Proof.
  intros w w' Hsteps.
  destruct (Steps_effect say clock random w w' Hsteps) as (Hreqs & (more & Hkb) & _).
  split; [|split; [|split]].
  - intros i r Hr. destruct (Hreqs i r Hr) as (r' & Hr' & Hsame & _). now exists r'.
  - intros i e He. rewrite Hkb. now apply lookup_app_l_Some.
  - now apply requestsAdvance_length.
  - rewrite Hkb, length_app. lia.
Qed.

(** X12.  After any run of calls the status of a request has only advanced: a
    resolved request is still resolved, and a request that was not pending
    is not pending again. *)
Theorem steps_advance_status :
  forall w w',
    Steps say clock random w w' ->
    forall (i : nat) (r : HelpRequest),
      helpRequests w !! i = Some r ->
      exists r', helpRequests w' !! i = Some r'
                 /\ (hr_status r = RESOLVED -> hr_status r' = RESOLVED)
                 /\ (hr_status r <> PENDING -> hr_status r' <> PENDING).
Proof.
  intros w w' Hsteps i r Hr.
  destruct (Steps_effect say clock random w w' Hsteps) as (Hreqs & _).
  destruct (Hreqs i r Hr) as (r' & Hr' & _ & Hadv). exists r'.
  split; [assumption|]. unfold statusAdvances in Hadv.
  split; intros Hstatus; destruct Hadv as [Hsame|[[Hwas Hnow]|Hnow]];
    congruence.
Qed.

(** X13.  The route resolves a request in the same write that stores the answer,
    so in every state reached from one where no pending request carries an
    answer, none does; there a tick of the poller notifies nobody and does
    what a pending-list read does, and the manual check answers [false]. *)
Theorem poller_idle_when_settled :
  forall w0 w,
    settled (helpRequests w0) ->
    Steps say clock random w0 w ->
    settled (helpRequests w)
    /\ checkForSupervisorResponses say clock w
       = (tt, snd (getPendingHelpRequests clock w))
    /\ notices (snd (checkForSupervisorResponses say clock w)) = notices w
    /\ forall requestId,
         checkRequestResolution say clock requestId w
         = (false, snd (getPendingHelpRequests clock w)).
Proof.
  intros w0 w Hw0 Hsteps.
  destruct (Steps_effect say clock random w0 w Hsteps) as (_ & _ & Hsettled).
  specialize (Hsettled Hw0).
  split; [assumption|]. split; [now apply tick_idle|]. split.
  - rewrite (tick_idle w Hsettled), getPendingHelpRequests_swept. reflexivity.
  - intros requestId.
    pose proof (checkRequestResolution_run say clock requestId w) as Hrun.
    cbn zeta in Hrun. rewrite getPendingHelpRequests_swept. cbn [snd].
    destruct (List.find _ _) as [request|] eqn:Hfind; [|exact Hrun].
    apply find_some in Hfind as [Hin _].
    rewrite (settled_no_work _ (settled_sweep _ _ Hsettled) request Hin) in Hrun.
    exact Hrun.
Qed.

(** X14.  When the ids are distinct, a tick leaves no pending request with an
    answer, so the tick that follows notifies nobody: no answer is announced
    twice by the poller. *)
Theorem second_tick_is_silent :
  forall w,
    List.NoDup (List.map hr_id (helpRequests w)) ->
    let w1 := snd (checkForSupervisorResponses say clock w) in
    settled (helpRequests w1)
    /\ notices (snd (checkForSupervisorResponses say clock w1)) = notices w1.
Proof.
  intros w Hnodup w1.
  assert (Hsettled : settled (helpRequests w1)).
  { subst w1. rewrite (tick_settles w Hnodup). apply settled_map_settle. }
  split; [assumption|].
  rewrite (tick_idle w1 Hsettled), getPendingHelpRequests_swept. reflexivity.
Qed.

(** X15.  The manual check looks at the first pending request that bears the id.
    It answers [true] exactly when that request carries an answer, and then
    it has announced the answer once; but it never marks the request: the
    file is left as the pending-list read leaves it. *)
Theorem checkRequestResolution_outcomes :
  forall (requestId : string) w,
    let swept := sweep (clock (clockReads w)) (helpRequests w) in
    let found := List.find (fun r => String.eqb (hr_id r) requestId)
                           (List.filter isPending swept) in
    let result := fst (checkRequestResolution say clock requestId w) in
    let w' := snd (checkRequestResolution say clock requestId w) in
    helpRequests w' = swept
    /\ knowledgeBase w' = knowledgeBase w
    /\ (result = true <-> exists r, found = Some r /\ answered r = true)
    /\ (forall r, found = Some r -> answered r = true ->
          List.map noticeTarget (notices w')
          = (List.map noticeTarget (notices w) ++ [announcement r])%list)
    /\ (result = false -> notices w' = notices w).
Proof.
  intros requestId w swept found result w'. subst result w'.
  pose proof (checkRequestResolution_run say clock requestId w) as Hrun.
  cbn zeta in Hrun. fold swept in Hrun. fold found in Hrun.
  destruct found as [request|].
  - destruct (answered request) eqn:Hanswered.
    + destruct Hrun as (delivered & sessions & reads & ->).
      cbn [fst snd helpRequests knowledgeBase notices].
      split; [reflexivity|]. split; [reflexivity|]. split; [|split].
      * split; [intros _; now exists request | reflexivity].
      * intros r [= <-] _. now rewrite map_app.
      * discriminate.
    + rewrite Hrun. cbn [fst snd helpRequests knowledgeBase notices].
      split; [reflexivity|]. split; [reflexivity|]. split; [|split].
      * split; [discriminate | intros (r & [= <-] & Hr); congruence].
      * intros r [= <-] Hr. congruence.
      * reflexivity.
  - rewrite Hrun. cbn [fst snd helpRequests knowledgeBase notices].
    split; [reflexivity|]. split; [reflexivity|]. split; [|split].
    + split; [discriminate | intros (r & [=] & _)].
    + intros r [=].
    + reflexivity.
Qed.

End Invariants.

Lemma steps_keep_records_witness :
  let w := Example.worldWith [Example.parkingPending] in
  let w' := snd (respond Example.sayOk Example.stillClock Example.suffix
                   "req_1_a" (Some "Yes, free parking in the lot") w) in
  exists r', helpRequests w' !! 0%nat = Some r'
             /\ sameRequest Example.parkingPending r'.
Proof.
  cbn zeta.
  destruct (steps_keep_records Example.sayOk Example.stillClock Example.suffix
              (Example.worldWith [Example.parkingPending])
              (snd (respond Example.sayOk Example.stillClock Example.suffix
                      "req_1_a" (Some "Yes, free parking in the lot")
                      (Example.worldWith [Example.parkingPending]))))
    as (Hkept & _).
  - eapply steps_next; [apply steps_refl | apply step_respond].
  - apply (Hkept 0%nat Example.parkingPending). reflexivity.
Defined.

Lemma steps_advance_status_witness :
  let w := Example.worldWith [Example.answeredTimedOut] in
  let w' := snd (checkForSupervisorResponses Example.sayOk Example.stillClock
                   (snd (getPendingHelpRequests Example.stillClock w))) in
  exists r', helpRequests w' !! 0%nat = Some r' /\ hr_status r' <> PENDING.
Proof.
  cbn zeta.
  destruct (steps_advance_status Example.sayOk Example.stillClock Example.suffix
              (Example.worldWith [Example.answeredTimedOut])
              (snd (checkForSupervisorResponses Example.sayOk Example.stillClock
                      (snd (getPendingHelpRequests Example.stillClock
                              (Example.worldWith [Example.answeredTimedOut])))))
              (steps_next _ _ _ _ _ _
                 (steps_next _ _ _ _ _ _ (steps_refl _ _ _ _) (step_pending _ _ _ _))
                 (step_tick _ _ _ _))
              0%nat Example.answeredTimedOut eq_refl)
    as (r' & Hr' & _ & Hnot).
  exists r'. split; [exact Hr' | apply Hnot; discriminate].
Defined.

Lemma poller_idle_when_settled_witness :
  let w := snd (respond Example.sayOk Example.stillClock Example.suffix
                  "req_1_a" (Some "Yes, free parking in the lot")
                  (Example.worldInCall [Example.parkingPending])) in
  notices (snd (checkForSupervisorResponses Example.sayOk Example.stillClock w))
  = notices w.
Proof.
  cbn zeta.
  destruct (poller_idle_when_settled Example.sayOk Example.stillClock Example.suffix
              (Example.worldInCall [Example.parkingPending])
              (snd (respond Example.sayOk Example.stillClock Example.suffix
                      "req_1_a" (Some "Yes, free parking in the lot")
                      (Example.worldInCall [Example.parkingPending]))))
    as (_ & _ & Hquiet & _).
  - intros r [<-|[]] _. reflexivity.
  - eapply steps_next; [apply steps_refl | apply step_respond].
  - exact Hquiet.
Defined.

Lemma second_tick_is_silent_witness :
  let w1 := snd (checkForSupervisorResponses Example.sayOk Example.stillClock
                   (Example.worldInCall [Example.answeredPending])) in
  notices (snd (checkForSupervisorResponses Example.sayOk Example.stillClock w1))
  = notices w1.
Proof.
  cbn zeta.
  apply (second_tick_is_silent Example.sayOk Example.stillClock
           (Example.worldInCall [Example.answeredPending])).
  simpl. apply List.NoDup_cons; [intros [] | apply List.NoDup_nil].
Defined.

(** ** The search reads questions, categories and sources only *)

Lemma scoreEntry_seedOf (normalizedQuery : string) (expanded : list string)
      (e e' : KnowledgeEntry) :
  seedOf e = seedOf e' ->
  Search.scoreEntry normalizedQuery expanded e
  = Search.scoreEntry normalizedQuery expanded e'.
Proof.
  unfold seedOf. intros [= Hquestion _ Hcategory Hsource].
  unfold Search.scoreEntry, Search.substringScore, Search.categoryScore,
    Search.keywordScore, Search.matchCount, Search.partialMatches,
    Search.learnedBonus, Search.normalizedQuestionOf.
  now rewrite Hquestion, Hcategory, Hsource.
Qed.

Lemma bestOf_seedOf (score : KnowledgeEntry -> Z) (l l' : list KnowledgeEntry) :
  (forall e e', seedOf e = seedOf e' -> score e = score e') ->
  List.map seedOf l = List.map seedOf l' ->
  option_map seedOf (bestOf score l) = option_map seedOf (bestOf score l').
Proof.
  intros Hscore. revert l'.
  induction l as [|x l IH]; intros [|x' l'] Hmap; try discriminate;
    [reflexivity|].
  cbn [List.map] in Hmap.
  assert (Hx : seedOf x = seedOf x') by congruence.
  assert (Hl : List.map seedOf l = List.map seedOf l') by congruence.
  specialize (IH l' Hl). rewrite !bestOf_cons, <- (Hscore x x' Hx).
  destruct (0 <? score x); [|exact IH].
  destruct (bestOf score l) as [y|], (bestOf score l') as [y'|];
    cbn [option_map] in IH; try discriminate.
  - assert (Hy : seedOf y = seedOf y') by congruence.
    rewrite <- (Hscore y y' Hy).
    destruct (score y <=? score x); cbn [option_map]; congruence.
  - cbn [option_map]. congruence.
Qed.

(** X16.  The search reads the question, the category and the source of an entry,
    and returns its answer: two knowledge bases that differ only in ids and
    dates give the same result, ids and dates apart. *)
Theorem searchKnowledge_ignores_ids_and_dates :
  forall (knowledge knowledge' : list KnowledgeEntry) (query : string),
    List.map seedOf knowledge = List.map seedOf knowledge' ->
    foundContent (Search.searchKnowledge knowledge query)
    = foundContent (Search.searchKnowledge knowledge' query).
Proof.
  intros knowledge knowledge' query Hsame.
  destruct (Search.expandedQueryWordsOf (normalize query)) as [expanded|e] eqn:Hexp.
  - rewrite !(searchKnowledge_bestOf _ _ _ Hexp). cbn [foundContent]. f_equal.
    apply bestOf_seedOf; [|exact Hsame].
    intros a b. apply scoreEntry_seedOf.
  - unfold Search.searchKnowledge. fold (normalize query). now rewrite Hexp.
Qed.

Lemma searchKnowledge_ignores_ids_and_dates_witness :
  foundContent
    (Search.searchKnowledge
       (knowledgeBase (snd (initDatabase Example.tickingClock Example.suffix
                              Example.emptyWorld)))
       "when do you open")
  = foundContent (Search.searchKnowledge Seed.initialKnowledge "when do you open").
Proof.
  apply (searchKnowledge_ignores_ids_and_dates
           (knowledgeBase (snd (initDatabase Example.tickingClock Example.suffix
                                  Example.emptyWorld)))
           Seed.initialKnowledge "when do you open").
  reflexivity.
Defined.

(** ** The tools of the agent and the loop of learning *)



Section Tools.
Context {Handle : Type}.
Variable say : Handle -> string -> bool.
Variable clock : nat -> Z.
Variable random : nat -> string.
Implicit Types (w : @World Handle).

(** X17.  The tool [searchKnowledge] answers from the knowledge base and then
    changes nothing; it escalates exactly when the search returns nothing,
    and then it does what the tool [requestHelp] does, which escalates
    whatever the knowledge base holds: one pending request at the end of the
    file, for the customer of the call, with the query as it was typed,
    without name, context or answer, and a reply that quotes its id.  An
    error of the search leaves the tool without touching anything. *)
Theorem agent_tools_outcomes :
  forall (customerPhone query : string) w,
    let searched := searchKnowledgeTool clock random customerPhone query w in
    let asked := requestHelpTool clock random customerPhone query w in
    (exists r,
       helpRequests (snd asked) = (helpRequests w ++ [r])%list
       /\ fst asked = helpRequestedReply (hr_id r)
       /\ hr_customerPhone r = customerPhone /\ hr_question r = query
       /\ hr_customerName r = None /\ hr_context r = None
       /\ hr_status r = PENDING
       /\ hr_supervisorAnswer r = None /\ hr_resolvedAt r = None
       /\ knowledgeBase (snd asked) = knowledgeBase w
       /\ notices (snd asked) = notices w
       /\ activeSessions (snd asked) = activeSessions w
       /\ match Search.searchKnowledge (knowledgeBase w) query with
          | Returns None =>
              searched = (Returns (escalatedReply (hr_id r)), snd asked)
          | Returns (Some entry) => searched = (Returns (ke_answer entry), w)
          | Throws e => searched = (Throws e, w)
          end).
Proof.
  intros customerPhone query w searched asked. subst searched asked.
  rewrite searchKnowledgeTool_run, requestHelpTool_run.
  rewrite (escalateToSupervisor_creates clock random
             (mkEscalationContext customerPhone None query None) w).
  cbn zeta. cbn [fst snd helpRequests knowledgeBase notices activeSessions].
  eexists. split; [reflexivity|].
  cbn [hr_id hr_customerPhone hr_question hr_customerName hr_context hr_status
       hr_supervisorAnswer hr_resolvedAt ec_customerPhone ec_question
       ec_customerName ec_conversationContext whenTruthy truthyOpt].
  repeat (split; [reflexivity|]).
  now destruct (Search.searchKnowledge (knowledgeBase w) query) as [[entry|]|e].
Qed.



End Tools.


(** ** The registry of live sessions *)

Section Sessions.
Context {Handle : Type}.
Variable say : Handle -> string -> bool.
Variable clock : nat -> Z.
Variable random : nat -> string.
Implicit Types (w : @World Handle).

Lemma notifyCustomer_lookup (customerPhone message : string) w :
  notifyCustomer say clock customerPhone message w =
  match activeSessions w !! customerPhone with
  | Some s =>
      if say (as_session s) message
      then (tt, mkWorld (helpRequests w) (knowledgeBase w) (activeSessions w)
                  (notices w ++ [mkCustomerNotice customerPhone message true])
                  (S (clockReads w)) (randomDraws w))
      else (tt, mkWorld (helpRequests w) (knowledgeBase w)
                  (delete customerPhone (activeSessions w))
                  (notices w ++ [mkCustomerNotice customerPhone message false])
                  (clockReads w) (randomDraws w))
  | None =>
      (tt, mkWorld (helpRequests w) (knowledgeBase w) (activeSessions w)
             (notices w ++ [mkCustomerNotice customerPhone message false])
             (clockReads w) (randomDraws w))
  end.
Proof.
  pose proof (sendMessageToCustomer_lookup say customerPhone message w) as Hsend.
  unfold notifyCustomer.
  destruct (activeSessions w !! customerPhone) as [s|].
  - destruct (say (as_session s) message);
      now rewrite (bind_run _ _ _ _ _ Hsend).
  - now rewrite (bind_run _ _ _ _ _ Hsend).
Qed.

Lemma notifyCustomer_sessions (customerPhone message : string) w :
  activeSessions (snd (notifyCustomer say clock customerPhone message w))
  ⊆ activeSessions w.
Proof.
  rewrite notifyCustomer_lookup.
  destruct (activeSessions w !! customerPhone) as [s|];
    [destruct (say (as_session s) message)|]; cbn [snd activeSessions];
    first [reflexivity | apply delete_subseteq].
Qed.

Lemma settleOne_sessions (p : HelpRequest) w :
  activeSessions (snd (settleOne say clock p w)) ⊆ activeSessions w.
Proof.
  unfold settleOne. destruct (answered p); [|reflexivity].
  unfold bind at 1. cbn [snd fst]. unfold bind, ret. cbn [fst snd].
  rewrite updateHelpRequest_markResolved. cbn [activeSessions].
  apply notifyCustomer_sessions.
Qed.

Lemma forEach_settleOne_sessions (pending : list HelpRequest) w :
  activeSessions (snd (forEach pending (settleOne say clock) w))
  ⊆ activeSessions w.
Proof.
  revert w. induction pending as [|p ps IH]; intros w; [reflexivity|].
  cbn [forEach]. unfold bind. etransitivity; [apply IH|].
  apply settleOne_sessions.
Qed.

Lemma respond_sessions (id : string) (answer : option string) w :
  activeSessions (snd (respond say clock random id answer w)) ⊆ activeSessions w.
Proof.
  destruct (truthyOpt answer) eqn:Hanswer.
  - destruct (findIndex (helpRequests w) id) as [i|] eqn:Hfind.
    + destruct (findIndex_Some _ _ _ Hfind) as (old & Hold & _).
      unfold respond. rewrite Hanswer. cbn [negb].
      rewrite (bind_run _ _ _ _ _ (now_run clock w)).
      set (w1 := mkWorld (helpRequests w) (knowledgeBase w) (activeSessions w)
                         (notices w) (S (clockReads w)) (randomDraws w)).
      rewrite (bind_run _ _ _ _ _ (updateHelpRequest_found id _ w1 i old Hfind Hold)).
      rewrite (bind_run _ _ _ _ _ (addKnowledge_run clock random _ _)).
      unfold followUpWithCustomer, bind, ret. cbn [fst snd].
      etransitivity; [apply notifyCustomer_sessions | reflexivity].
    + now rewrite (respond_unknown _ _ _ _ _ _ Hanswer Hfind).
  - now rewrite (respond_no_answer _ _ _ _ _ _ Hanswer).
Qed.

(** A call other than [registerSession] adds no session, and
    [registerSession] files the session under the phone it records. *)
Lemma Step_sessions w w' :
  Step say clock random w w' ->
  activeSessions w' ⊆ activeSessions w
  \/ exists customerPhone session roomName connectedAt,
       activeSessions w' =
       <[customerPhone := mkActiveSession customerPhone session roomName connectedAt]>
         (activeSessions w).
Proof.
  intros [phone query v | phone question v | id answer v | v | v | requestId v
         | phone session room v | phone v | v].
  - left. rewrite searchKnowledgeTool_run.
    destruct (Search.searchKnowledge (knowledgeBase v) query) as [[entry|]|e];
      cbn [snd]; reflexivity.
  - left. rewrite requestHelpTool_run. cbn [snd].
    now rewrite escalateToSupervisor_creates.
  - left. apply respond_sessions.
  - left. now rewrite getPendingHelpRequests_swept.
  - left. rewrite checkForSupervisorResponses_loop, getPendingHelpRequests_swept.
    cbn [fst snd]. etransitivity; [apply forEach_settleOne_sessions | reflexivity].
  - left. unfold checkRequestResolution.
    rewrite (bind_run _ _ _ _ _ (getPendingHelpRequests_swept clock v)).
    destruct (List.find _ _) as [request|]; [|reflexivity].
    destruct (answered request); [|reflexivity].
    unfold bind, ret. cbn [fst snd].
    etransitivity; [apply notifyCustomer_sessions | reflexivity].
  - right. now exists phone, session, room, (clock (clockReads v)).
  - left. cbn. apply delete_subseteq.
  - left. destruct (initDatabase_run clock random v) as [_ Hkb].
    destruct (knowledgeBase v) as [|e kb].
    + unfold initDatabase, seedKnowledgeBase.
      rewrite (bind_run getAllKnowledge _ v (knowledgeBase v) v eq_refl).
      destruct (length (knowledgeBase v) =? 0)%nat; [|reflexivity].
      destruct (forEach_addKnowledge clock random initialKnowledge v)
        as (_ & Hsessions & _).
      cbn zeta in Hsessions. now rewrite Hsessions.
    + now rewrite Hkb.
Qed.

(** X20.  [registerSession] replaces whatever session the phone had: the next
    message for that phone goes to the new session and the delivery is what
    its [say] gives; the session is active and is read back with the phone,
    the room and the time of the registration; the sessions of the other
    phones are as they were, and the count grows by one only when the phone
    had no session. *)
Theorem registerSession_then_send :
  forall (customerPhone : string) (session : Handle) (roomName message : string) w,
    let w1 := snd (registerSession clock customerPhone session roomName w) in
    fst (sendMessageToCustomer say customerPhone message w1) = say session message
    /\ fst (isSessionActive customerPhone w1) = true
    /\ fst (getSession customerPhone w1)
       = Some (mkActiveSession customerPhone session roomName (clock (clockReads w)))
    /\ (forall other, other <> customerPhone ->
          fst (getSession other w1) = fst (getSession other w))
    /\ fst (getActiveSessionCount w1)
       = match fst (getSession customerPhone w) with
         | Some _ => fst (getActiveSessionCount w)
         | None => S (fst (getActiveSessionCount w))
         end.
Proof.
  intros customerPhone session roomName message w w1.
  assert (Hsessions : activeSessions w1 =
            <[customerPhone := mkActiveSession customerPhone session roomName
                                 (clock (clockReads w))]> (activeSessions w))
    by reflexivity.
  split; [|split; [|split; [|split]]].
  - rewrite sendMessageToCustomer_lookup, Hsessions, lookup_insert_eq.
    cbn [as_session]. now destruct (say session message).
  - unfold isSessionActive, getSessions, bind. cbn [fst snd].
    now rewrite Hsessions, lookup_insert_eq.
  - unfold getSession, getSessions, bind, ret. cbn [fst snd].
    now rewrite Hsessions, lookup_insert_eq.
  - intros other Hother. unfold getSession, getSessions, bind, ret. cbn [fst snd].
    rewrite Hsessions. now apply lookup_insert_ne.
  - unfold getActiveSessionCount, getSession, getSessions, bind, ret. cbn [fst snd].
    rewrite Hsessions, map_size_insert.
    now destruct (activeSessions w !! customerPhone).
Qed.

(** X21.  After [unregisterSession] no message reaches the phone, and trying to
    send one changes nothing; the phone is not active; the sessions of the
    other phones are as they were, and the count falls by one only when the
    phone had a session. *)
Theorem unregisterSession_then_send :
  forall (customerPhone message : string) w,
    let w1 := snd (unregisterSession customerPhone w) in
    sendMessageToCustomer say customerPhone message w1 = (false, w1)
    /\ fst (isSessionActive customerPhone w1) = false
    /\ fst (getSession customerPhone w1) = None
    /\ (forall other, other <> customerPhone ->
          fst (getSession other w1) = fst (getSession other w))
    /\ fst (getActiveSessionCount w1)
       = match fst (getSession customerPhone w) with
         | Some _ => pred (fst (getActiveSessionCount w))
         | None => fst (getActiveSessionCount w)
         end.
Proof.
  intros customerPhone message w w1.
  assert (Hsessions : activeSessions w1 = delete customerPhone (activeSessions w))
    by reflexivity.
  split; [|split; [|split; [|split]]].
  - now rewrite sendMessageToCustomer_lookup, Hsessions, lookup_delete_eq.
  - unfold isSessionActive, getSessions, bind. cbn [fst snd].
    now rewrite Hsessions, lookup_delete_eq.
  - unfold getSession, getSessions, bind, ret. cbn [fst snd].
    now rewrite Hsessions, lookup_delete_eq.
  - intros other Hother. unfold getSession, getSessions, bind, ret. cbn [fst snd].
    rewrite Hsessions. now apply lookup_delete_ne.
  - unfold getActiveSessionCount, getSession, getSessions, bind, ret. cbn [fst snd].
    rewrite Hsessions, map_size_delete.
    now destruct (activeSessions w !! customerPhone).
Qed.

(** X22.  [followUpWithCustomer] logs one notice, for the customer, with the
    answer behind the greeting.  The notice says delivered exactly when the
    customer has a session whose [say] succeeds, and then the sessions are
    as they were; otherwise the customer has no session afterwards, so the
    next message is not delivered either, and the sessions of the others
    are as they were.  The two files are not touched. *)
Theorem followUpWithCustomer_logs_delivery :
  forall (customerPhone answer : string) w,
    let w' := snd (followUpWithCustomer say clock customerPhone answer w) in
    exists delivered : bool,
      notices w' = (notices w
                    ++ [mkCustomerNotice customerPhone (answerMessage answer)
                          delivered])%list
      /\ (delivered = true <->
          exists s, activeSessions w !! customerPhone = Some s
                    /\ say (as_session s) (answerMessage answer) = true)
      /\ (delivered = true -> activeSessions w' = activeSessions w)
      /\ (delivered = false ->
          activeSessions w' !! customerPhone = None
          /\ forall next, fst (sendMessageToCustomer say customerPhone next w') = false)
      /\ (forall other, other <> customerPhone ->
            activeSessions w' !! other = activeSessions w !! other)
      /\ helpRequests w' = helpRequests w
      /\ knowledgeBase w' = knowledgeBase w.
Proof.
  intros customerPhone answer w w'. subst w'. unfold followUpWithCustomer.
  assert (Hquiet : forall v : @World Handle,
             activeSessions v !! customerPhone = None ->
             forall next, fst (sendMessageToCustomer say customerPhone next v) = false).
  { intros v Hv next. now rewrite sendMessageToCustomer_lookup, Hv. }
  rewrite notifyCustomer_lookup.
  destruct (activeSessions w !! customerPhone) as [s|] eqn:Hs.
  - destruct (say (as_session s) (answerMessage answer)) eqn:Hsay;
      cbn [snd notices activeSessions helpRequests knowledgeBase].
    + exists true. split; [reflexivity|]. split; [|split; [|split]].
      * split; [intros _; now exists s | reflexivity].
      * reflexivity.
      * discriminate.
      * now repeat split.
    + exists false. split; [reflexivity|]. split; [|split; [|split]].
      * split; [discriminate|]. intros (s' & [= <-] & Hs'). congruence.
      * discriminate.
      * intros _. split; [apply lookup_delete_eq|].
        apply Hquiet. apply lookup_delete_eq.
      * split; [|now split]. intros other Hother. now apply lookup_delete_ne.
  - cbn [snd notices activeSessions helpRequests knowledgeBase].
    exists false. split; [reflexivity|]. split; [|split; [|split]].
    + split; [discriminate|]. intros (s' & [=] & _).
    + discriminate.
    + intros _. split; [exact Hs|]. now apply Hquiet.
    + now repeat split.
Qed.

(** X23.  Sessions enter the registry through [registerSession] only, which files
    each under the phone it records, and every other call at most removes
    sessions: in every state reached from one where the sessions are filed
    so, they are. *)
Theorem sessions_stay_keyed :
  forall w w',
    Steps say clock random w w' ->
    sessionsKeyed (activeSessions w) ->
    sessionsKeyed (activeSessions w').
Proof.
  induction 1 as [v|v1 v2 v3 _ IH Hstep]; [trivial|].
  intros Hv1 customerPhone s Hs. specialize (IH Hv1).
  destruct (Step_sessions _ _ Hstep)
    as [Hsub | (phone & session & room & connected & Hinsert)].
  - apply IH. exact (lookup_weaken _ _ _ _ Hs Hsub).
  - rewrite Hinsert in Hs.
    destruct (decide (phone = customerPhone)) as [->|Hne].
    + rewrite lookup_insert_eq in Hs. now injection Hs as <-.
    + rewrite lookup_insert_ne in Hs by assumption. now apply IH.
Qed.

End Sessions.

Lemma sessions_stay_keyed_witness :
  sessionsKeyed
    (activeSessions
       (snd (checkForSupervisorResponses Example.sayFails Example.stillClock
               (snd (registerSession Example.stillClock "+1987654321" tt "room-2"
                       (Example.worldInCall [Example.answeredPending])))))).
Proof.
  apply (sessions_stay_keyed Example.sayFails Example.stillClock Example.suffix
           (Example.worldInCall [Example.answeredPending])).
  - eapply steps_next; [eapply steps_next; [apply steps_refl|]|].
    + apply step_register.
    + apply step_tick.
  - intros customerPhone s Hs. unfold Example.worldInCall in Hs.
    cbn [activeSessions] in Hs.
    apply lookup_singleton_Some in Hs as [<- <-]. reflexivity.
Defined.

(** ** Follow-ups kept for the next call *)

Lemma markFollowUpDelivered_cons (nowMs : Z) (id : string) (f : PendingFollowUp)
      (rest : list PendingFollowUp) :
  markFollowUpDelivered nowMs id (f :: rest) =
  if String.eqb (fu_id f) id then setDelivered nowMs f :: rest
  else f :: markFollowUpDelivered nowMs id rest.
Proof.
  unfold markFollowUpDelivered. cbn [findFollowUp].
  destruct (String.eqb (fu_id f) id); [reflexivity|].
  destruct (findFollowUp rest id) as [i|]; [|reflexivity].
  change ((f :: rest) !! S i) with (rest !! i).
  now destruct (rest !! i).
Qed.

Lemma filter_all {A : Type} (p : A -> bool) (l : list A) :
  (forall x, In x l -> p x = true) -> List.filter p l = l.
Proof.
  induction l as [|a l IH]; intros H; [reflexivity|].
  cbn [List.filter]. rewrite (H a (or_introl eq_refl)), IH; [reflexivity|].
  intros x Hx. apply H. now right.
Qed.

(** X24.  [addPendingFollowUp] puts the new follow-up at the end of the file
    under a fresh record; it joins the pending list of its customer, last,
    exactly when it comes without a delivery date, and the pending list of
    no other customer changes. *)
Theorem addPendingFollowUp_then_pending :
  forall (idTime : Z) (suffix : string) (created : Z) (followUp : NewFollowUp)
         (followUps : list PendingFollowUp) (customerPhone : string),
    let new := fst (addPendingFollowUp idTime suffix created followUp followUps) in
    let written := snd (addPendingFollowUp idTime suffix created followUp followUps) in
    written = (followUps ++ [new])%list
    /\ fu_customerPhone new = nf_customerPhone followUp
    /\ fu_message new = nf_message followUp
    /\ getPendingFollowUpsForCustomer customerPhone written
       = (getPendingFollowUpsForCustomer customerPhone followUps
          ++ (if String.eqb (nf_customerPhone followUp) customerPhone
                 && negb (bool_decide (is_Some (nf_deliveredAt followUp)))
              then [new] else []))%list.
Proof.
  intros idTime suffix created followUp followUps customerPhone new written.
  subst new written. unfold addPendingFollowUp. cbn [fst snd].
  cbn [fu_customerPhone fu_message].
  repeat (split; [reflexivity|]).
  unfold getPendingFollowUpsForCustomer. rewrite List.filter_app.
  cbn [List.filter fu_customerPhone fu_deliveredAt].
  now destruct (_ && _).
Qed.

(** X25.  [markFollowUpDelivered] keeps the file in length, ids and order, and
    changes nothing when no follow-up bears the id.  When the ids are
    distinct, it takes the follow-up that bears the id, and no other, out
    of the pending list of every customer. *)
Theorem markFollowUpDelivered_removes_from_pending :
  forall (nowMs : Z) (id : string) (followUps : list PendingFollowUp),
    let written := markFollowUpDelivered nowMs id followUps in
    List.map fu_id written = List.map fu_id followUps
    /\ ((forall f, In f followUps -> fu_id f <> id) -> written = followUps)
    /\ (List.NoDup (List.map fu_id followUps) ->
        forall customerPhone,
          getPendingFollowUpsForCustomer customerPhone written
          = List.filter (isNot id)
              (getPendingFollowUpsForCustomer customerPhone followUps)).
Proof.
  intros nowMs id followUps written. subst written.
  split; [|split].
  - induction followUps as [|f rest IH]; [reflexivity|].
    rewrite markFollowUpDelivered_cons.
    destruct (String.eqb (fu_id f) id); cbn [List.map]; [reflexivity|].
    now rewrite IH.
  - induction followUps as [|f rest IH]; intros Hfresh; [reflexivity|].
    rewrite markFollowUpDelivered_cons.
    destruct (String.eqb_spec (fu_id f) id) as [Heq|_].
    + now destruct (Hfresh f (or_introl eq_refl)).
    + rewrite IH; [reflexivity|]. intros x Hx. apply Hfresh. now right.
  - intros Hnodup customerPhone.
    unfold getPendingFollowUpsForCustomer.
    fold (isPendingFor customerPhone).
    induction followUps as [|f rest IH]; [reflexivity|].
    cbn [List.map] in Hnodup. apply List.NoDup_cons_iff in Hnodup as [Hf Hrest].
    rewrite markFollowUpDelivered_cons.
    destruct (String.eqb_spec (fu_id f) id) as [Heq|Hne].
    + cbn [List.filter]. unfold isPendingFor at 1.
      cbn [setDelivered fu_customerPhone fu_deliveredAt].
      rewrite (bool_decide_eq_true_2 (is_Some (Some nowMs))) by eauto.
      rewrite andb_false_r.
      assert (Hothers : List.filter (isNot id) (List.filter (isPendingFor customerPhone) rest)
                        = List.filter (isPendingFor customerPhone) rest).
      { apply filter_all. intros x Hx. apply filter_In in Hx as [Hx _].
        unfold isNot. destruct (String.eqb_spec (fu_id x) id) as [Hxid|]; [|reflexivity].
        destruct Hf. rewrite Heq, <- Hxid. now apply in_map. }
      destruct (isPendingFor customerPhone f); cbn [List.filter].
      * unfold isNot at 1. rewrite (proj2 (String.eqb_eq _ _) Heq). cbn [negb].
        now rewrite Hothers.
      * now rewrite Hothers.
    + cbn [List.filter]. rewrite (IH Hrest).
      destruct (isPendingFor customerPhone f); cbn [List.filter]; [|reflexivity].
      unfold isNot at 2. rewrite (proj2 (String.eqb_neq _ _) Hne). reflexivity.
Qed.

Lemma markFollowUpDelivered_removes_from_pending_witness :
  getPendingFollowUpsForCustomer "+1234567890"
    (markFollowUpDelivered 1000 "followup_1_a"
       [FollowUpExample.first; FollowUpExample.second])
  = [FollowUpExample.second].
Proof.
  destruct (markFollowUpDelivered_removes_from_pending 1000 "followup_1_a"
              [FollowUpExample.first; FollowUpExample.second])
    as (_ & _ & Hpending).
  rewrite Hpending; [reflexivity|].
  cbn. apply List.NoDup_cons; [intros [H|[]]; discriminate|].
  apply List.NoDup_cons; [intros [] | apply List.NoDup_nil].
Defined.

(** ** Starting and stopping the poller *)

(** X26.  Whatever the sequence of starts and stops since the service was made,
    the flag says whether a timer is held, the timer held is the only one
    running, and none runs when none is held: starting twice does not
    start a second timer, and a stop leaves no timer behind. *)
Theorem polling_keeps_one_timer :
  forall calls : list PollingCall,
    let p := fold_left pollingCall calls initialPolling in
    isPolling p = bool_decide (is_Some (pollingInterval p))
    /\ runningTimers p = from_option singleton ∅ (pollingInterval p)
    /\ (size (runningTimers p) <= 1)%nat
    /\ runningTimers (stopSupervisorResponsePolling p) = ∅
    /\ startSupervisorResponsePolling (startSupervisorResponsePolling p)
       = startSupervisorResponsePolling p.
Proof.
  intros calls p.
  assert (Hinv : isPolling p = bool_decide (is_Some (pollingInterval p))
                 /\ runningTimers p = from_option singleton ∅ (pollingInterval p)).
  { subst p. induction calls as [|c calls IH] using rev_ind; [now split|].
    rewrite fold_left_app. cbn [fold_left].
    destruct IH as [Hflag Htimers].
    destruct (fold_left pollingCall calls initialPolling)
      as [[timer|] polling timers next];
      cbn [isPolling pollingInterval runningTimers] in Hflag, Htimers;
      subst polling timers; destruct c; cbn; split.
    all: try reflexivity.
    - exact (difference_diag_L (C := gset nat) _).
    - exact (union_empty_r_L (C := gset nat) _). }
  destruct Hinv as [Hflag Htimers].
  split; [exact Hflag|]. split; [exact Htimers|].
  split; [|split].
  - rewrite Htimers. destruct (pollingInterval p); cbn [from_option];
      [rewrite size_singleton | rewrite size_empty]; lia.
  - unfold stopSupervisorResponsePolling.
    destruct (pollingInterval p) as [timer|] eqn:Hheld; cbn [runningTimers];
      rewrite Htimers; cbn [from_option]; [apply difference_diag_L | reflexivity].
  - unfold startSupervisorResponsePolling at 2 3.
    destruct (isPolling p) eqn:Hpolling.
    + unfold startSupervisorResponsePolling. now rewrite Hpolling.
    + reflexivity.
Qed.
